(** * Device session driver and command orchestrator: a shallow embedding

    The development follows [network_tools.py] (class [SSHClient] and
    [execute_commands_ssh]), [tools/__init__.py]
    ([ConfigurationValidator.validate_commands]) and [app/models.py]
    ([EquipmentType]).

    Modelling conventions.
    - A Python [str] is the Rocq [string] of its UTF-8 bytes; the code
      compares texts with ASCII constants only, for which substring and
      equality tests on the bytes and on the characters agree.
    - Durations and the event-loop clock are natural numbers of milliseconds
      ([10.0] seconds is [10000]).
    - Coroutines are functions in a state-and-exception monad over a [World]
      holding the client object and the transport it talks to.
    - [print] only logs; it is left out of the embedding. *)

From Stdlib Require Import String Ascii List Bool Arith NArith ZArith Lia DecimalString.
Import ListNotations.
Open Scope string_scope.

(** ** Text *)

Definition lower_char (c : ascii) : ascii :=
  let n := nat_of_ascii c in
  if ((65 <=? n)%nat && (n <=? 90)%nat)%bool then ascii_of_nat (n + 32) else c.

Definition is_byte (n : nat) (c : ascii) : bool := (nat_of_ascii c =? n)%nat.

(** [s.lower()] on the UTF-8 text of [s].  Besides the letters A-Z, two
    characters have a lower case that contains an ASCII character: the Kelvin
    sign U+212A (bytes E2 84 AA), which becomes [k], and the dotted capital I
    U+0130 (bytes C4 B0), which becomes [i] followed by the combining dot
    U+0307 (bytes CC 87).  Any other character outside ASCII has a lower case
    that is again outside ASCII; it is left as it is, which no comparison
    with ASCII text can tell. *)
Fixpoint lower (s : string) : string :=
  match s with
  | EmptyString => EmptyString
  | String c s1 =>
      match s1 with
      | EmptyString => String (lower_char c) EmptyString
      | String c1 s2 =>
          if is_byte 196 c && is_byte 176 c1 then
            String "i" (String (ascii_of_nat 204)
                          (String (ascii_of_nat 135) (lower s2)))
          else
            match s2 with
            | EmptyString => String (lower_char c) (lower s1)
            | String c2 s3 =>
                if is_byte 226 c && is_byte 132 c1 && is_byte 170 c2
                then String "k" (lower s3)
                else String (lower_char c) (lower s1)
            end
      end
  end.

(** [starts_with p s]: [s.startswith(p)]. *)
Fixpoint starts_with (p s : string) : bool :=
  match p, s with
  | EmptyString, _ => true
  | String _ _, EmptyString => false
  | String a p', String b s' => Ascii.eqb a b && starts_with p' s'
  end.

(** [contains sub s]: the Python test [sub in s] on strings. *)
Fixpoint contains (sub s : string) : bool :=
  starts_with sub s ||
  match s with
  | EmptyString => false
  | String _ s' => contains sub s'
  end.

(** A non-empty string is truthy. *)
Definition truthy (s : string) : bool :=
  match s with EmptyString => false | String _ _ => true end.

Definition CR : ascii := ascii_of_nat 13.
Definition LF : ascii := ascii_of_nat 10.
Definition CRLF : string := String CR (String LF EmptyString).
Definition NL : string := String LF EmptyString.

(** ["sep".join(parts)]. *)
Fixpoint join (sep : string) (parts : list string) : string :=
  match parts with
  | [] => ""
  | [p] => p
  | p :: rest => p ++ sep ++ join sep rest
  end.

(** Rendering of a duration given in milliseconds the way Python prints the
    float number of seconds: [10000] is ["10.0"], [2500] is ["2.5"].  This is
    Python's text for the durations a float holds to the millisecond; far
    beyond any timeout in use (from some 10^12 seconds) a float drops the
    milliseconds and, from 10^16 seconds, is printed with an exponent. *)
Definition digits (n : N) : string := NilEmpty.string_of_uint (N.to_uint n).

Definition seconds (ms : N) : string :=
  let whole := (ms / 1000)%N in
  let frac := (ms mod 1000)%N in
  let tail :=
    if (frac mod 100 =? 0)%N then digits (frac / 100)
    else if (frac mod 10 =? 0)%N then digits (frac / 100) ++ digits ((frac / 10) mod 10)
    else digits (frac / 100) ++ digits ((frac / 10) mod 10) ++ digits (frac mod 10) in
  digits whole ++ "." ++ tail.

(** ** Exceptions and coroutines *)

(** The exception classes the code distinguishes.  [CancelledError] derives
    from [BaseException] only, so [except Exception] lets it through. *)
Inductive exn : Type :=
| ValueError (msg : string)
| TimeoutError (msg : string)
| Exception (msg : string)
| CancelledError.

Definition is_Exception (e : exn) : bool :=
  match e with CancelledError => false | _ => true end.

Definition is_TimeoutError (e : exn) : bool :=
  match e with TimeoutError _ => true | _ => false end.

Definition is_ValueError (e : exn) : bool :=
  match e with ValueError _ => true | _ => false end.

(** [str(e)]. *)
Definition str (e : exn) : string :=
  match e with
  | ValueError m | TimeoutError m | Exception m => m
  | CancelledError => ""
  end.

Inductive outcome (A : Type) : Type :=
| Return (a : A)
| Raise (e : exn).
Arguments Return {A} a.
Arguments Raise {A} e.

Definition M (S A : Type) : Type := S -> outcome A * S.

Definition ret {S A} (a : A) : M S A := fun s => (Return a, s).
Definition raise {S A} (e : exn) : M S A := fun s => (Raise e, s).

Definition bind {S A B} (m : M S A) (k : A -> M S B) : M S B :=
  fun s =>
    match m s with
    | (Return a, s') => k a s'
    | (Raise e, s') => (Raise e, s')
    end.

Notation "x <- m ;; k" := (bind m (fun x => k))
  (at level 61, m at next level, right associativity).
Notation "m ;;; k" := (bind m (fun _ => k))
  (at level 61, right associativity).

(** [try: m  except <class> as e: handler e]; an exception outside the class
    propagates. *)
Definition try_except {S A} (m : M S A) (class : exn -> bool)
    (handler : exn -> M S A) : M S A :=
  fun s =>
    match m s with
    | (Return a, s') => (Return a, s')
    | (Raise e, s') => if class e then handler e s' else (Raise e, s')
    end.

(** [try: m  finally: cleanup]. *)
Definition try_finally {S A} (m : M S A) (cleanup : M S unit) : M S A :=
  fun s =>
    match m s with
    | (Return a, s') =>
        match cleanup s' with
        | (Return _, s'') => (Return a, s'')
        | (Raise e, s'') => (Raise e, s'')
        end
    | (Raise e, s') =>
        match cleanup s' with
        | (Return _, s'') => (Raise e, s'')
        | (Raise e', s'') => (Raise e', s'')
        end
    end.

(** ** The world: the client object and its transport *)

(** What one [asyncio.wait_for(self.stdout.read(1024), timeout=0.5)] can do:
    deliver data after some time, run into its half-second limit, or fail
    with an exception of the transport. *)
Inductive ReadEvent : Type :=
| Chunk (elapsed : N) (data : string)
| Silence
| Broken (e : exn).

(** The handles of [SSHClient]: [true] when the attribute is set, [false]
    when it is [None]. *)
Record SSHClient : Type := {
  connection : bool;
  stdin : bool;
  stdout : bool
}.

(** The environment of the client.
    - [clock]: the event-loop time.
    - [inbox]: what the remote end has already queued for reading.
    - [device]: the remote end; given everything written so far, the events
      it queues in answer to the last write.
    - [sleeps], [drains]: the outcome of the coming [asyncio.sleep] and
      [stdin.drain] calls ([Some e] raises [e]; past the end of the list a
      call succeeds).
    - [dial], [shell]: whether [asyncssh.connect] and [open_session] raise.
    - the three counters record the calls of [stdin.close],
      [connection.close] and [connection.wait_closed]. *)
Record Transport : Type := {
  clock : N;
  inbox : list ReadEvent;
  device : list string -> list ReadEvent;
  written : list string;
  sleeps : list (option exn);
  drains : list (option exn);
  dial : option exn;
  shell : option exn;
  stdin_close_calls : nat;
  close_calls : nat;
  wait_closed_calls : nat
}.

Record World : Type := {
  self : SSHClient;
  net : Transport
}.

Definition set_self (c : SSHClient) (w : World) : World :=
  {| self := c; net := net w |}.

Definition set_net (t : Transport) (w : World) : World :=
  {| self := self w; net := t |}.

Definition advance (ms : N) (t : Transport) : Transport :=
  {| clock := (clock t + ms)%N; inbox := inbox t; device := device t;
     written := written t; sleeps := sleeps t; drains := drains t;
     dial := dial t; shell := shell t;
     stdin_close_calls := stdin_close_calls t; close_calls := close_calls t;
     wait_closed_calls := wait_closed_calls t |}.

Definition set_inbox (q : list ReadEvent) (t : Transport) : Transport :=
  {| clock := clock t; inbox := q; device := device t;
     written := written t; sleeps := sleeps t; drains := drains t;
     dial := dial t; shell := shell t;
     stdin_close_calls := stdin_close_calls t; close_calls := close_calls t;
     wait_closed_calls := wait_closed_calls t |}.

Definition set_written (l : list string) (t : Transport) : Transport :=
  {| clock := clock t; inbox := inbox t; device := device t;
     written := l; sleeps := sleeps t; drains := drains t;
     dial := dial t; shell := shell t;
     stdin_close_calls := stdin_close_calls t; close_calls := close_calls t;
     wait_closed_calls := wait_closed_calls t |}.

Definition set_sleeps (l : list (option exn)) (t : Transport) : Transport :=
  {| clock := clock t; inbox := inbox t; device := device t;
     written := written t; sleeps := l; drains := drains t;
     dial := dial t; shell := shell t;
     stdin_close_calls := stdin_close_calls t; close_calls := close_calls t;
     wait_closed_calls := wait_closed_calls t |}.

Definition set_drains (l : list (option exn)) (t : Transport) : Transport :=
  {| clock := clock t; inbox := inbox t; device := device t;
     written := written t; sleeps := sleeps t; drains := l;
     dial := dial t; shell := shell t;
     stdin_close_calls := stdin_close_calls t; close_calls := close_calls t;
     wait_closed_calls := wait_closed_calls t |}.

Definition count_closes (a b c : nat) (t : Transport) : Transport :=
  {| clock := clock t; inbox := inbox t; device := device t;
     written := written t; sleeps := sleeps t; drains := drains t;
     dial := dial t; shell := shell t;
     stdin_close_calls := stdin_close_calls t + a;
     close_calls := close_calls t + b;
     wait_closed_calls := wait_closed_calls t + c |}.

(** *** Primitive operations of the environment *)

(** [await asyncio.sleep(ms)]. *)
Definition asyncio_sleep (ms : N) : M World unit :=
  fun w =>
    match sleeps (net w) with
    | Some e :: rest => (Raise e, set_net (set_sleeps rest (net w)) w)
    | None :: rest => (Return tt, set_net (advance ms (set_sleeps rest (net w))) w)
    | [] => (Return tt, set_net (advance ms (net w)) w)
    end.

(** [await asyncio.wait_for(self.stdout.read(1024), timeout=0.5)]. *)
Definition stdout_read : M World string :=
  fun w =>
    match inbox (net w) with
    | Chunk elapsed data :: rest =>
        (Return data, set_net (advance elapsed (set_inbox rest (net w))) w)
    | Silence :: rest =>
        (Raise (TimeoutError ""), set_net (advance 500 (set_inbox rest (net w))) w)
    | Broken e :: rest => (Raise e, set_net (set_inbox rest (net w)) w)
    | [] => (Raise (TimeoutError ""), set_net (advance 500 (net w)) w)
    end.

(** [self.stdin.write(data)]: the remote end sees the data and queues its
    answer. *)
Definition stdin_write (data : string) : M World unit :=
  fun w =>
    let sent := (written (net w) ++ [data])%list in
    (Return tt,
     set_net (set_inbox (inbox (net w) ++ device (net w) sent)%list
                (set_written sent (net w))) w).

(** [await self.stdin.drain()]. *)
Definition stdin_drain : M World unit :=
  fun w =>
    match drains (net w) with
    | Some e :: rest => (Raise e, set_net (set_drains rest (net w)) w)
    | None :: rest => (Return tt, set_net (set_drains rest (net w)) w)
    | [] => (Return tt, w)
    end.

(** [self.connection = await asyncssh.connect(...)]. *)
Definition asyncssh_connect : M World unit :=
  fun w =>
    match dial (net w) with
    | Some e => (Raise e, w)
    | None =>
        (Return tt,
         set_self {| connection := true; stdin := stdin (self w);
                     stdout := stdout (self w) |} w)
    end.

(** [self.stdin, self.stdout, self.stderr = await self.connection.open_session(...)]. *)
Definition open_session : M World unit :=
  fun w =>
    match shell (net w) with
    | Some e => (Raise e, w)
    | None =>
        (Return tt,
         set_self {| connection := connection (self w); stdin := true;
                     stdout := true |} w)
    end.

(** ** The session driver: class [SSHClient] *)

(** [SSHClient.__init__]: all handles start as [None]. *)
Definition new_client : SSHClient :=
  {| connection := false; stdin := false; stdout := false |}.

(** The prompt test of the read loop:
    ['#' in output or '>' in output or '$' in output or ':' in output]. *)
Definition has_prompt (output : string) : bool :=
  contains "#" output || contains ">" output || contains "$" output
  || contains ":" output.

(** The [while] loop of [_read_until_timeout].  It yields the accumulated
    output together with the exception that left the loop, if any: the
    enclosing [try] still has the output in hand when it handles it.
    One unit of [fuel] is one test of the loop condition. *)
Fixpoint read_loop (fuel : nat) (start_time timeout : N) (output : string)
    (w : World) : (string * option exn) * World :=
  match fuel with
  | O => ((output, None), w)
  | S fuel' =>
      if (clock (net w) - start_time <? timeout)%N then
        match stdout_read w with
        | (Return chunk, w1) =>
            if truthy chunk then
              let output' := output ++ chunk in
              if has_prompt output' then ((output', None), w1)
              else read_loop fuel' start_time timeout output' w1
            else read_loop fuel' start_time timeout output w1
        | (Raise e, w1) =>
            if is_TimeoutError e then
              if has_prompt output then ((output, None), w1)
              else read_loop fuel' start_time timeout output w1
            else ((output, Some e), w1)
        end
      else ((output, None), w)
  end.

(** The number of condition tests the loop can need: every queued event is
    read at most once, and once the queue is empty every read costs half a
    second of the window. *)
Definition read_budget (start_time timeout : N) (w : World) : nat :=
  length (inbox (net w))
  + N.to_nat ((start_time + timeout - clock (net w) + 499) / 500).

(** [SSHClient._read_until_timeout]. *)
Definition _read_until_timeout (timeout : N) : M World string :=
  fun w =>
    if negb (stdout (self w)) then (Return "", w)
    else
      let start_time := clock (net w) in
      match read_loop (S (read_budget start_time timeout w))
                      start_time timeout "" w with
      | ((output, None), w') => (Return output, w')
      | ((output, Some e), w') =>
          if is_Exception e then (Return output, w') else (Raise e, w')
      end.

(** [SSHClient.connect]; [password] and [key_filename] are the attributes
    of that name ([None] when absent). *)
Definition connect (password key_filename : option string) : M World bool :=
  try_except
    ((match password, key_filename with
      | Some (String _ _), _ => ret tt
      | _, Some (String _ _) => ret tt
      | _, _ => raise (ValueError "Необходимо указать password или key_filename")
      end) ;;;
     asyncssh_connect ;;;
     open_session ;;;
     asyncio_sleep 2000 ;;;
     initial_output <- _read_until_timeout 3000 ;;
     ret true)
    is_Exception
    (fun e => ret false).

(** [SSHClient.disconnect]. *)
Definition disconnect : M World unit :=
  fun w =>
    let t1 := if stdin (self w) then count_closes 1 0 0 (net w) else net w in
    let t2 := if connection (self w) then count_closes 0 1 1 t1 else t1 in
    (Return tt, {| self := new_client; net := t2 |}).

(** [SSHClient.send_command]. *)
Definition send_command (command : string) (timeout : N) : M World string :=
  fun w =>
    if negb (stdin (self w)) || negb (stdout (self w))
    then (Raise (Exception "Нет активного подключения"), w)
    else
      (asyncio_sleep 500 ;;;
       stdin_write (command ++ CRLF) ;;;
       stdin_drain ;;;
       output <- _read_until_timeout timeout ;;
       ret output) w.

(** One entry of the result list. *)
Record CommandResult : Type := {
  success : bool;
  command : string;
  output : string;
  error : option string
}.

Definition failure_keywords : list string :=
  ["error"; "invalid"; "failed"; "incorrect"; "%"].

Definition rejection_reason : string := "Обнаружена ошибка в выводе команды".

Definition timeout_reason (timeout : N) : string :=
  "Таймаут выполнения команды (" ++ seconds timeout ++ "с)".

(** [SSHClient.execute_command]. *)
Definition execute_command (command : string) (timeout : N)
    : M World CommandResult :=
  fun w =>
    match send_command command timeout w with
    | (Return output, w') =>
        let success :=
          negb (existsb (fun error => contains error (lower output))
                        failure_keywords) in
        (Return {| success := success; command := command; output := output;
                   error := if success then None else Some rejection_reason |},
         w')
    | (Raise e, w') =>
        if is_TimeoutError e then
          (Return {| success := false; command := command; output := "";
                     error := Some (timeout_reason timeout) |}, w')
        else if is_Exception e then
          (Return {| success := false; command := command; output := "";
                     error := Some (str e) |}, w')
        else (Raise e, w')
    end.

(** ** Equipment types and their command tables *)

(** [app.models.EquipmentType]. *)
Inductive EquipmentType : Type :=
| CISCO_IOS
| JUNIPER_JUNOS
| HUAWEI
| MIKROTIK.

(** The [.value] of a member. *)
Definition value (e : EquipmentType) : string :=
  match e with
  | CISCO_IOS => "cisco_ios"
  | JUNIPER_JUNOS => "juniper_junos"
  | HUAWEI => "huawei"
  | MIKROTIK => "mikrotik"
  end.

(** [repr(v)] of a text: between single quotes, or between double quotes
    when the text has a single quote and no double quote; the quote in use
    and the backslash are escaped, and so are the control characters of
    ASCII.  Characters outside ASCII are kept, as Python keeps the printable
    ones. *)
Definition double_quote : ascii := ascii_of_nat 34.

Definition hex_digit (n : nat) : ascii :=
  if (n <? 10)%nat then ascii_of_nat (48 + n) else ascii_of_nat (87 + n).

Definition escape (quote c : ascii) : string :=
  let n := nat_of_ascii c in
  if (Ascii.eqb c quote || Ascii.eqb c "\")%bool then String "\" (String c "")
  else if (n =? 9)%nat then "\t"
  else if (n =? 10)%nat then "\n"
  else if (n =? 13)%nat then "\r"
  else if ((n <? 32) || (n =? 127))%nat
       then "\x" ++ String (hex_digit (n / 16)) (String (hex_digit (n mod 16)) "")
  else String c "".

Fixpoint escape_all (quote : ascii) (s : string) : string :=
  match s with
  | EmptyString => EmptyString
  | String c s' => escape quote c ++ escape_all quote s'
  end.

Definition repr (v : string) : string :=
  let quote :=
    if contains "'" v && negb (contains (String double_quote "") v)
    then double_quote else "'"%char in
  String quote (escape_all quote v ++ String quote "").

(** The call [EquipmentType(v)]: the member whose value is [v], and a
    [ValueError] when there is none. *)
Definition EquipmentType_call (v : string) : outcome EquipmentType :=
  if v =? "cisco_ios" then Return CISCO_IOS
  else if v =? "juniper_junos" then Return JUNIPER_JUNOS
  else if v =? "huawei" then Return HUAWEI
  else if v =? "mikrotik" then Return MIKROTIK
  else Raise (ValueError (repr v ++ " is not a valid EquipmentType")).

(** [SSHClient._get_config_mode_commands]. *)
Definition _get_config_mode_commands (equipment_type : EquipmentType)
    : list string :=
  match equipment_type with
  | CISCO_IOS => ["enable"; "configure terminal"]
  | JUNIPER_JUNOS => ["configure"]
  | HUAWEI => ["system-view"]
  | MIKROTIK => []
  end.

(** [SSHClient._get_exit_commands]. *)
Definition _get_exit_commands (equipment_type : EquipmentType) : list string :=
  match equipment_type with
  | CISCO_IOS => ["end"; "exit"]
  | JUNIPER_JUNOS => ["commit"; "exit"]
  | HUAWEI => ["commit"; "quit"]
  | MIKROTIK => []
  end.

(** ** The orchestrator: [SSHClient.execute_commands] *)

(** The dictionary [execute_commands] returns; [report_error] is [None] when
    the key ["error"] is absent. *)
Record Report : Type := {
  report_success : bool;
  equipment_type_value : string;
  total_commands : nat;
  successful_commands : nat;
  report_results : list CommandResult;
  report_error : option string
}.

(** The two local variables of [execute_commands] that outlive an exception:
    the handler reads [results] as the body left it. *)
Record Frame : Type := {
  results : list CommandResult;
  all_success : bool
}.

Definition St : Type := (World * Frame)%type.

Definition lift {A} (m : M World A) : M St A :=
  fun s => let (o, w') := m (fst s) in (o, (w', snd s)).

(** [results.append(result)]. *)
Definition append_result (result : CommandResult) : M St unit :=
  fun s =>
    (Return tt,
     (fst s, {| results := (results (snd s) ++ [result])%list;
                all_success := all_success (snd s) |})).

(** [all_success = False]. *)
Definition clear_all_success : M St unit :=
  fun s =>
    (Return tt, (fst s, {| results := results (snd s); all_success := false |})).

Definition read_all_success : M St bool :=
  fun s => (Return (all_success (snd s)), s).

(** The timeout [execute_command] takes by default. *)
Definition default_timeout : N := 10000.

(** The loop over [config_mode_commands], left at the first failure. *)
Fixpoint entry_loop (delay : N) (cmds : list string) : M St unit :=
  match cmds with
  | [] => ret tt
  | cmd :: rest =>
      result <- lift (execute_command cmd default_timeout) ;;
      append_result result ;;;
      if negb (success result) then clear_all_success
      else lift (asyncio_sleep delay) ;;; entry_loop delay rest
  end.

(** The loop over [main_commands]. *)
Fixpoint main_loop (delay : N) (cmds : list string) : M St unit :=
  match cmds with
  | [] => ret tt
  | cmd :: rest =>
      result <- lift (execute_command cmd default_timeout) ;;
      append_result result ;;;
      (if negb (success result) then clear_all_success else ret tt) ;;;
      lift (asyncio_sleep delay) ;;;
      main_loop delay rest
  end.

(** The loop over [exit_commands]. *)
Fixpoint exit_loop (delay : N) (cmds : list string) : M St unit :=
  match cmds with
  | [] => ret tt
  | cmd :: rest =>
      result <- lift (execute_command cmd default_timeout) ;;
      append_result result ;;;
      lift (asyncio_sleep delay) ;;;
      exit_loop delay rest
  end.

(** [cmd in cmds] on a list of strings. *)
Definition mem (cmd : string) (cmds : list string) : bool :=
  existsb (String.eqb cmd) cmds.

(** [[cmd for cmd in commands if cmd not in config_mode_commands]]. *)
Definition main_commands (commands config_mode_commands : list string)
    : list string :=
  filter (fun cmd => negb (mem cmd config_mode_commands)) commands.

(** [sum(1 for r in results if r["success"])]. *)
Definition count_successes (rs : list CommandResult) : nat :=
  length (filter success rs).

(** The body of the [try] of [execute_commands]. *)
Definition execute_commands_body (commands : list string)
    (equipment_type : EquipmentType) (delay_between_commands : N)
    : M St Report :=
  let config_mode_commands := _get_config_mode_commands equipment_type in
  entry_loop delay_between_commands config_mode_commands ;;;
  entered <- read_all_success ;;
  (if entered
   then main_loop delay_between_commands
          (main_commands commands config_mode_commands)
   else ret tt) ;;;
  let exit_commands := _get_exit_commands equipment_type in
  exit_loop delay_between_commands exit_commands ;;;
  fun s =>
    (Return {| report_success := all_success (snd s);
               equipment_type_value := value equipment_type;
               total_commands := length commands;
               successful_commands := count_successes (results (snd s));
               report_results := results (snd s);
               report_error := None |}, s).

(** [SSHClient.execute_commands]. *)
Definition execute_commands (commands : list string)
    (equipment_type : EquipmentType) (delay_between_commands : N)
    : M World Report :=
  fun w =>
    match execute_commands_body commands equipment_type delay_between_commands
            (w, {| results := []; all_success := true |}) with
    | (Return report, s) => (Return report, fst s)
    | (Raise e, s) =>
        if is_Exception e then
          (Return {| report_success := false;
                     equipment_type_value := value equipment_type;
                     total_commands := length commands;
                     successful_commands := 0;
                     report_results := results (snd s);
                     report_error := Some (str e) |}, fst s)
        else (Raise e, fst s)
    end.

(** ** The entry point: [execute_commands_ssh] *)

(** The conversion of the device type string at the head of
    [execute_commands_ssh]. *)
Definition device_type_enum_of (device_type_str : string)
    : M World EquipmentType :=
  try_except
    (fun w => (EquipmentType_call (lower device_type_str), w))
    is_ValueError
    (fun _ => ret CISCO_IOS).

(** The text [execute_commands_ssh] makes of a report. *)
Definition aggregate (execution_result : Report) : string :=
  if report_success execution_result then
    join NL
      (map (fun r => "Command: " ++ command r ++ NL ++ "Output: " ++ output r ++ NL)
           (filter success (report_results execution_result)))
  else
    match filter (fun r => negb (success r)) (report_results execution_result) with
    | first_error :: _ =>
        "Ошибка выполнения команды '" ++ command first_error ++ "': "
        ++ (if truthy (output first_error) then output first_error
            else match error first_error with Some e => e | None => "None" end)
    | [] =>
        "Ошибка выполнения команд: "
        ++ match report_error execution_result with
           | Some e => e
           | None => "Неизвестная ошибка"
           end
    end.

(** [execute_commands_ssh]. *)
Definition execute_commands_ssh (commands : list string)
    (ip username password device_type_str : string) : M World string :=
  device_type_enum <- device_type_enum_of device_type_str ;;
  (fun w => (Return tt, set_self new_client w)) ;;;
  connected <- connect (Some password) None ;;
  if connected then
    try_finally
      (execution_result <- execute_commands commands device_type_enum 1000 ;;
       ret (aggregate execution_result))
      disconnect
  else
    raise (Exception ("Не удалось подключиться к устройству " ++ ip
                      ++ " под пользователем " ++ username ++ ".")).

(** ** The safety validator: [ConfigurationValidator.validate_commands] *)

(** The regular expressions of the pattern table use one construct besides
    literal characters, the word boundary [\b]; their literal characters are
    letters, spaces and the slash, none of which has a special meaning in a
    regular expression.  [re_compile] reads such patterns. *)
Inductive token : Type :=
| WordBoundary
| Literal (c : ascii).

Fixpoint re_compile (pattern : string) : list token :=
  match pattern with
  | EmptyString => []
  | String "\" (String "b" rest) => WordBoundary :: re_compile rest
  | String c rest => Literal c :: re_compile rest
  end.

(** A word character of [re] within ASCII: a letter, a digit or the
    underscore. *)
Definition is_word (c : ascii) : bool :=
  let n := nat_of_ascii c in
  ((48 <=? n)%nat && (n <=? 57)%nat) || ((65 <=? n)%nat && (n <=? 90)%nat)
  || ((97 <=? n)%nat && (n <=? 122)%nat) || (n =? 95)%nat.

Section Matching.

(** For a character outside ASCII, [re] asks the Unicode database whether it
    is alphanumeric.  [unicode_word text] stands for that answer for the
    character that begins [text]; it is consulted for no other character. *)
Variable unicode_word : string -> bool.

(** Whether the character that begins [s] is a word character. *)
Definition word_ahead (s : string) : bool :=
  match s with
  | EmptyString => false
  | String a _ =>
      if (nat_of_ascii a <? 128)%nat then is_word a else unicode_word s
  end.

(** Whether the character just passed is a word character, once the first
    byte of [s] is passed, [prev] being the answer before it.  A byte that
    continues a character (10xxxxxx) belongs to the character whose first
    byte settled the answer. *)
Definition word_behind (prev : bool) (s : string) : bool :=
  match s with
  | EmptyString => prev
  | String a _ =>
      if (nat_of_ascii a <? 128)%nat then is_word a
      else if (nat_of_ascii a <? 192)%nat then prev
      else unicode_word s
  end.

(** Does the pattern match at the head of [s], [prev] telling whether the
    character just before is a word character. *)
Fixpoint match_here (pat : list token) (prev : bool) (s : string) : bool :=
  match pat with
  | [] => true
  | WordBoundary :: pat' =>
      xorb prev (word_ahead s) && match_here pat' prev s
  | Literal c :: pat' =>
      match s with
      | EmptyString => false
      | String a s' =>
          Ascii.eqb a c && match_here pat' (word_behind prev s) s'
      end
  end.

Fixpoint search_from (pat : list token) (prev : bool) (s : string) : bool :=
  match_here pat prev s ||
  match s with
  | EmptyString => false
  | String a s' => search_from pat (word_behind prev s) s'
  end.

(** [re.search(pattern, s)], as a truth value, for the patterns of the
    table. *)
Definition re_search (pattern s : string) : bool :=
  search_from (re_compile pattern) false s.

(** The table [dangerous_patterns]: (pattern, description) per type. *)
Definition dangerous_patterns (equipment_type : EquipmentType)
    : list (string * string) :=
  match equipment_type with
  | CISCO_IOS =>
      [("\berase\b", "Стирание конфигурации (erase)");
       ("\bdelete\b", "Удаление файлов (delete)");
       ("\breload\b", "Перезагрузка оборудования (reload)");
       ("\bformat\b", "Форматирование (format)");
       ("\bwrite memory\b", "Сохранение конфигурации (write memory)");
       ("\bwrite\b", "Сохранение конфигурации (write)");
       ("\bno shutdown\b", "Включение интерфейса (no shutdown)");
       ("\bshutdown\b", "Отключение интерфейса (shutdown)")]
  | JUNIPER_JUNOS =>
      [("\bcommit\b", "Применение изменений (commit)");
       ("\brequest system reboot\b", "Перезагрузка системы (request system reboot)");
       ("\brequest system halt\b", "Выключение системы (request system halt)")]
  | HUAWEI =>
      [("\bsave\b", "Сохранение конфигурации (save)");
       ("\breset\b", "Сброс настроек (reset)");
       ("\breboot\b", "Перезагрузка (reboot)");
       ("\bshutdown\b", "Отключение интерфейса (shutdown)")]
  | MIKROTIK =>
      [("/system reboot", "Перезагрузка (reboot)");
       ("/system shutdown", "Выключение (shutdown)");
       ("/interface disable", "Отключение интерфейса")]
  end.

Definition safe_keywords : list string :=
  ["show"; "display"; "get"; "view"; "print"].

(** The inner loop [for pattern, description in current_patterns], threading
    the list [warnings] it appends to. *)
Fixpoint for_patterns (cmd cmd_lower : string)
    (current_patterns : list (string * string)) (warnings : list string)
    : list string :=
  match current_patterns with
  | [] => warnings
  | (pattern, description) :: rest =>
      for_patterns cmd cmd_lower rest
        (if re_search pattern cmd_lower then
           if negb (existsb (fun safe => contains safe cmd_lower) safe_keywords)
           then (warnings ++ [("WARNING: " ++ description ++ ": " ++ cmd)%string])%list
           else warnings
         else warnings)
  end.

(** The outer loop [for cmd in commands]. *)
Fixpoint for_commands (commands : list string)
    (current_patterns : list (string * string)) (warnings : list string)
    : list string :=
  match commands with
  | [] => warnings
  | cmd :: rest =>
      for_commands rest current_patterns
        (for_patterns cmd (lower cmd) current_patterns warnings)
  end.

(** The dictionary [validate_commands] returns. *)
Record Verdict : Type := {
  is_safe : bool;
  warnings : list string;
  dangerous_commands_count : nat
}.

Definition validate_commands (commands : list string)
    (equipment_type : EquipmentType) : Verdict :=
  let current_patterns := dangerous_patterns equipment_type in
  let warnings := for_commands commands current_patterns [] in
  {| is_safe := (length warnings =? 0)%nat;
     warnings := warnings;
     dangerous_commands_count := length warnings |}.

(** The validator as the specification words it: a command carrying a
    read-only marker yields nothing; any other command yields one warning for
    each pattern that matches it, in the order of the table. *)
Definition read_only (cmd : string) : bool :=
  existsb (fun marker => contains marker (lower cmd)) safe_keywords.

Definition warning_text (description cmd : string) : string :=
  "WARNING: " ++ description ++ ": " ++ cmd.

Definition warnings_of_command (patterns : list (string * string))
    (cmd : string) : list string :=
  if read_only cmd then []
  else map (fun rule => warning_text (snd rule) cmd)
           (filter (fun rule => re_search (fst rule) (lower cmd)) patterns).

Definition spec_warnings (patterns : list (string * string))
    (commands : list string) : list string :=
  flat_map (warnings_of_command patterns) commands.

(** The number of warnings a command yields, as a function of its
    lower-cased form. *)
Definition hits (patterns : list (string * string)) (cmd_lower : string)
    : nat :=
  if existsb (fun marker => contains marker cmd_lower) safe_keywords then 0
  else length (filter (fun rule => re_search (fst rule) cmd_lower) patterns).

End Matching.

(** The literal characters of a compiled pattern, and the pattern without
    its word boundaries: the text a match consists of. *)
Fixpoint literals (pat : list token) : string :=
  match pat with
  | [] => EmptyString
  | WordBoundary :: pat' => literals pat'
  | Literal c :: pat' => String c (literals pat')
  end.

Definition bare (pattern : string) : string := literals (re_compile pattern).

(** A classification for texts whose characters outside ASCII are all
    letters. *)
Definition all_letters : string -> bool := fun _ => true.

(** ** Vocabulary of the statements *)

(** [sub] occurs in [s]. *)
Definition Substring (sub s : string) : Prop :=
  exists pre post, s = pre ++ sub ++ post.

(** [p] is an initial segment of [l]. *)
Definition prefix_of {A} (p l : list A) : Prop :=
  exists rest, l = (p ++ rest)%list.

(** What a session owns of the world: the handles of the client and the
    close calls its transport has seen. *)
Definition session_view (w : World) : SSHClient * (nat * nat * nat) :=
  (self w,
   (stdin_close_calls (net w), close_calls (net w), wait_closed_calls (net w))).

(** A coroutine that changes nothing of what the session owns. *)
Definition keeps_session {A} (m : M World A) : Prop :=
  forall w o w', m w = (o, w') -> session_view w' = session_view w.

(** The same for a coroutine of the body of [execute_commands]. *)
Definition keeps_session_in_body {A} (m : M St A) : Prop :=
  forall s o s', m s = (o, s') -> session_view (fst s') = session_view (fst s).

(** The anatomy of a report that [execute_commands] returns from the end of
    its [try]: results of the entry phase, then of the main phase, then of
    the exit phase.  Either the entry phase ran through, every entry command
    succeeding, and the main phase attempted all the caller's commands that
    are not entry commands; or the entry phase stopped at its first failure
    and there was no main phase. *)
Definition phases (commands : list string) (equipment_type : EquipmentType)
    (report : Report) (entry_rs main_rs exit_rs : list CommandResult) : Prop :=
  report_results report = (entry_rs ++ main_rs ++ exit_rs)%list
  /\ map command exit_rs = _get_exit_commands equipment_type
  /\ report_error report = None
  /\ successful_commands report = count_successes (report_results report)
  /\ total_commands report = length commands
  /\ ((map command entry_rs = _get_config_mode_commands equipment_type
       /\ forallb success entry_rs = true
       /\ map command main_rs
          = main_commands commands (_get_config_mode_commands equipment_type)
       /\ report_success report = forallb success main_rs)
      \/ (exists pre bad,
            entry_rs = (pre ++ [bad])%list
            /\ forallb success pre = true
            /\ success bad = false
            /\ prefix_of (map command entry_rs)
                         (_get_config_mode_commands equipment_type)
            /\ main_rs = []
            /\ report_success report = false)).

(** The commands behind a list of results. *)
Definition attempted (rs : list CommandResult) : list string :=
  map command rs.

(** The client after a successful [connect]. *)
Definition live : SSHClient :=
  {| connection := true; stdin := true; stdout := true |}.

(** ** Laboratory worlds

    Concrete transports used to run the embedding: a fresh transport around
    a scripted remote end, with the given outcomes for the [asyncio.sleep]
    calls to come. *)

Definition lab (dev : list string -> list ReadEvent)
    (naps : list (option exn)) : Transport :=
  {| clock := 0; inbox := []; device := dev; written := [];
     sleeps := naps; drains := [];
     dial := None; shell := None;
     stdin_close_calls := 0; close_calls := 0; wait_closed_calls := 0 |}.

(** A remote end that answers every line with a configuration prompt. *)
Definition obliging : list string -> list ReadEvent :=
  fun _ => [Chunk 10 "Router(config)#"].

(** A remote end that rejects every line and shows no prompt. *)
Definition rejecting : list string -> list ReadEvent :=
  fun _ => [Chunk 10 "% Invalid input detected"].

(** A remote end that never answers. *)
Definition mute : list string -> list ReadEvent :=
  fun _ => [].

(** A remote end that rejects the line [bad] and accepts any other. *)
Definition picky (bad : string) : list string -> list ReadEvent :=
  fun sent =>
    if last sent "" =? bad ++ CRLF
    then [Chunk 10 "% Invalid input detected"; Chunk 10 "Router(config)#"]
    else [Chunk 10 "Router(config)#"].

Definition connected_to (dev : list string -> list ReadEvent)
    (naps : list (option exn)) : World :=
  {| self := live; net := lab dev naps |}.

Definition not_yet_connected (dev : list string -> list ReadEvent) : World :=
  {| self := new_client; net := lab dev [] |}.

(** ** The tool endpoint: [execute_tool] of [mcp_server.py] *)

(** The dictionary [execute_tool] returns. *)
Record ToolResult : Type := {
  tool_output : string;
  tool_error : bool
}.

(** [execute_tool]; the arguments are the fields of the request. *)
Definition execute_tool (commands : list string)
    (device_ip username password device_type : string) : M World ToolResult :=
  device_type_enum <- device_type_enum_of device_type ;;
  try_except
    (output <- execute_commands_ssh commands device_ip username password
                 device_type ;;
     if contains "%" output || contains "error" (lower output)
     then ret {| tool_output := "Ошибка выполнения команды: " ++ output;
                 tool_error := true |}
     else ret {| tool_output := output; tool_error := false |})
    is_Exception
    (fun e =>
       ret {| tool_output := "Ошибка подключения или выполнения: " ++ str e;
              tool_error := true |}).

(** ** Further vocabulary *)

(** The text carried by a run of read events. *)
Fixpoint chunk_data (events : list ReadEvent) : string :=
  match events with
  | [] => ""
  | Chunk _ data :: rest => data ++ chunk_data rest
  | _ :: rest => chunk_data rest
  end.

(** A read event that respects the half-second limit of [wait_for]. *)
Definition timely (event : ReadEvent) : Prop :=
  match event with
  | Chunk elapsed _ => (elapsed <= 500)%N
  | _ => True
  end.

(** What [send_command] writes for a command. *)
Definition line (cmd : string) : string := cmd ++ CRLF.

(** A connected client in a world without pending faults of [asyncio.sleep]
    or [stdin.drain]. *)
Definition calm (w : World) : Prop :=
  stdin (self w) = true /\ stdout (self w) = true
  /\ sleeps (net w) = [] /\ drains (net w) = [].

(** A coroutine that leaves some view of the world as it found it. *)
Definition preserves {A V} (view : World -> V) (m : M World A) : Prop :=
  forall w o w', m w = (o, w') -> view w' = view w.

(** What has been written, and the close calls made, so far. *)
Definition wire_log (w : World) : list string * (nat * nat * nat) :=
  (written (net w),
   (stdin_close_calls (net w), close_calls (net w), wait_closed_calls (net w))).

(** A connected client with the given events already queued for reading and
    a remote end that says nothing more. *)
Definition queued (events : list ReadEvent) : World :=
  {| self := live; net := set_inbox events (lab mute []) |}.

(** The same once the clock has reached [now]. *)
Definition queued_after (now : N) (events : list ReadEvent) : World :=
  {| self := live; net := advance now (set_inbox events (lab mute [])) |}.

(** What reading cannot change: the handles, what was written, the close
    calls, and the faults still to come. *)
Definition beyond_reading (w : World)
    : SSHClient * list string * (nat * nat * nat)
      * list (option exn) * list (option exn) :=
  (self w, written (net w),
   (stdin_close_calls (net w), close_calls (net w), wait_closed_calls (net w)),
   sleeps (net w), drains (net w)).

(** A transport on which [asyncssh.connect] is refused, and one on which
    the connection is made but no interactive session can be opened. *)
Definition refusing : Transport :=
  {| clock := 0; inbox := []; device := mute; written := [];
     sleeps := []; drains := [];
     dial := Some (Exception "Connection refused"); shell := None;
     stdin_close_calls := 0; close_calls := 0; wait_closed_calls := 0 |}.

Definition without_shell : Transport :=
  {| clock := 0; inbox := []; device := mute; written := [];
     sleeps := []; drains := [];
     dial := None; shell := Some (Exception "Channel open failure");
     stdin_close_calls := 0; close_calls := 0; wait_closed_calls := 0 |}.

(** The state of the body of [execute_commands] in a calm world where,
    since [base], exactly the commands behind [results] have been written. *)
Definition in_step (base : list string) (s : St) : Prop :=
  calm (fst s)
  /\ written (net (fst s))
     = (base ++ map line (attempted (results (snd s))))%list.

(** A character of ASCII that comes before the letters, such as a space, a
    quote or a colon. *)
Definition plain (x : ascii) : bool :=
  (nat_of_ascii x <? 65)%nat.

(** The Kelvin sign U+212A and the dotted capital I U+0130, as UTF-8. *)
Definition kelvin_sign : string :=
  String (ascii_of_nat 226) (String (ascii_of_nat 132)
    (String (ascii_of_nat 170) EmptyString)).

Definition dotted_capital_i : string :=
  String (ascii_of_nat 196) (String (ascii_of_nat 176) EmptyString).

(** * Properties *)

(** ** Text *)

Lemma starts_with_spec (p s : string) :
  starts_with p s = true <-> exists post, s = p ++ post.
Proof.
  revert s; induction p as [|a p IH]; intros s; simpl.
  - split; [intros _; now exists s | reflexivity].
  - destruct s as [|b s].
    + split; [discriminate | intros [post H]; discriminate].
    + rewrite andb_true_iff, IH, Ascii.eqb_eq.
      split.
      * intros [-> [post ->]]. now exists post.
      * intros [post H]. injection H as -> ->. split; [reflexivity | now exists post].
Qed.

Lemma contains_spec (sub s : string) :
  contains sub s = true <-> Substring sub s.
Proof.
  unfold Substring. induction s as [|b s IH].
  - simpl. rewrite orb_false_r, starts_with_spec. split.
    + intros [post H]. now exists "", post.
    + intros [pre [post H]]. destruct pre; simpl in H.
      * now exists post.
      * discriminate.
  - cbn [contains]. rewrite orb_true_iff, starts_with_spec, IH. split.
    + intros [[post H] | [pre [post H]]].
      * now exists "", post.
      * exists (String b pre), post. simpl. now rewrite H.
    + intros [pre [post H]]. destruct pre as [|c pre]; simpl in H.
      * left. now exists post.
      * right. injection H as _ H. now exists pre, post.
Qed.

Lemma existsb_contains_spec (keys : list string) (s : string) :
  existsb (fun k => contains k s) keys = false <->
  forall k, In k keys -> ~ Substring k s.
Proof.
  induction keys as [|k keys IH]; simpl.
  - split; [intros _ k [] | reflexivity].
  - rewrite orb_false_iff, IH. split.
    + intros [Hk Hrest] k' [<- | Hin].
      * rewrite <- contains_spec. now rewrite Hk.
      * now apply Hrest.
    + intros H. split.
      * destruct (contains k s) eqn:E; [|reflexivity].
        exfalso. apply (H k); [now left | now apply contains_spec].
      * intros k' Hin. apply H. now right.
Qed.

(** ** The read loop *)

Lemma read_loop_unfold (fuel : nat) (start_time timeout : N) (out : string)
    (w : World) :
  read_loop (S fuel) start_time timeout out w =
  if (clock (net w) - start_time <? timeout)%N then
    match stdout_read w with
    | (Return chunk, w1) =>
        if truthy chunk then
          if has_prompt (out ++ chunk) then ((out ++ chunk, None), w1)
          else read_loop fuel start_time timeout (out ++ chunk) w1
        else read_loop fuel start_time timeout out w1
    | (Raise e, w1) =>
        if is_TimeoutError e then
          if has_prompt out then ((out, None), w1)
          else read_loop fuel start_time timeout out w1
        else ((out, Some e), w1)
    end
  else ((out, None), w).
Proof. reflexivity. Qed.

(** A read that does not leave the loop uses up some of the budget and
    never turns the clock back. *)
Lemma stdout_read_budget (start_time timeout : N) (w w1 : World)
    (o : outcome string) :
  (start_time <= clock (net w))%N ->
  (clock (net w) - start_time <? timeout)%N = true ->
  stdout_read w = (o, w1) ->
  (start_time <= clock (net w1))%N /\
  ((forall e, o = Raise e -> is_TimeoutError e = true) ->
   read_budget start_time timeout w1 < read_budget start_time timeout w).
Proof.
  intros Hstart Hcond Hread. apply N.ltb_lt in Hcond.
  unfold stdout_read in Hread. unfold read_budget.
  destruct (inbox (net w)) as [|[elapsed data| |e] rest] eqn:Hin;
    injection Hread as <- <-; cbn; rewrite ?Hin; cbn.
  - split; [lia|]. intros _.
    assert (H : ((start_time + timeout - (clock (net w) + 500) + 499) / 500
                 < (start_time + timeout - clock (net w) + 499) / 500)%N)
      by (zify; Z.to_euclidean_division_equations; lia).
    lia.
  - split; [lia|]. intros _.
    assert (H : ((start_time + timeout - (clock (net w) + elapsed) + 499) / 500
                 <= (start_time + timeout - clock (net w) + 499) / 500)%N)
      by (zify; Z.to_euclidean_division_equations; lia).
    lia.
  - split; [lia|]. intros _.
    assert (H : ((start_time + timeout - (clock (net w) + 500) + 499) / 500
                 <= (start_time + timeout - clock (net w) + 499) / 500)%N)
      by (zify; Z.to_euclidean_division_equations; lia).
    lia.
  - split; [lia|]. intros _. lia.
Qed.

(** The fuel [_read_until_timeout] gives its loop is never used up: more
    fuel yields the same run. *)
Lemma read_loop_enough (fuel : nat) :
  forall (start_time timeout : N) (out : string) (w : World),
    (start_time <= clock (net w))%N ->
    read_budget start_time timeout w < fuel ->
    read_loop (S fuel) start_time timeout out w
    = read_loop fuel start_time timeout out w.
Proof.
  induction fuel as [|fuel IH]; intros start_time timeout out w Hstart Hfuel.
  - inversion Hfuel.
  - rewrite (read_loop_unfold (S fuel)), (read_loop_unfold fuel).
    destruct (clock (net w) - start_time <? timeout)%N eqn:Hcond; [|reflexivity].
    destruct (stdout_read w) as [[chunk|e] w1] eqn:Hread.
    + destruct (stdout_read_budget start_time timeout w w1 _ Hstart Hcond Hread)
        as [Hstart1 Hless].
      assert (Hfuel1 : read_budget start_time timeout w1 < fuel).
      { assert (read_budget start_time timeout w1 < read_budget start_time timeout w)
          by (apply Hless; intros e He; discriminate).
        lia. }
      destruct (truthy chunk).
      * destruct (has_prompt (out ++ chunk)); [reflexivity|]. now apply IH.
      * now apply IH.
    + destruct (is_TimeoutError e) eqn:He; [|reflexivity].
      destruct (has_prompt out); [reflexivity|].
      destruct (stdout_read_budget start_time timeout w w1 _ Hstart Hcond Hread)
        as [Hstart1 Hless].
      assert (read_budget start_time timeout w1 < read_budget start_time timeout w)
        by (apply Hless; intros e' He'; injection He' as <-; exact He).
      apply IH; [assumption | lia].
Qed.

Lemma read_loop_fuel_irrelevant (extra : nat) (timeout : N) (w : World) :
  read_loop (S (read_budget (clock (net w)) timeout w) + extra)
            (clock (net w)) timeout "" w
  = read_loop (S (read_budget (clock (net w)) timeout w))
              (clock (net w)) timeout "" w.
Proof.
  induction extra as [|extra IH].
  - now rewrite Nat.add_0_r.
  - rewrite Nat.add_succ_r, <- IH. apply read_loop_enough; lia.
Qed.

(** ** Coroutines that leave the session alone *)

Lemma keeps_ret {A} (a : A) : keeps_session (ret a).
Proof. intros w o w' H. now injection H as _ <-. Qed.

Lemma keeps_raise {A} (e : exn) : keeps_session (@raise World A e).
Proof. intros w o w' H. now injection H as _ <-. Qed.

Lemma keeps_bind {A B} (m : M World A) (k : A -> M World B) :
  keeps_session m -> (forall a, keeps_session (k a)) -> keeps_session (bind m k).
Proof.
  intros Hm Hk w o w' H. unfold bind in H.
  destruct (m w) as [[a|e] w1] eqn:E.
  - rewrite (Hk a _ _ _ H). exact (Hm _ _ _ E).
  - injection H as _ <-. exact (Hm _ _ _ E).
Qed.

Lemma keeps_try_except {A} (m : M World A) (class : exn -> bool)
    (handler : exn -> M World A) :
  keeps_session m -> (forall e, keeps_session (handler e)) ->
  keeps_session (try_except m class handler).
Proof.
  intros Hm Hh w o w' H. unfold try_except in H.
  destruct (m w) as [[a|e] w1] eqn:E.
  - injection H as _ <-. exact (Hm _ _ _ E).
  - destruct (class e).
    + rewrite (Hh e _ _ _ H). exact (Hm _ _ _ E).
    + injection H as _ <-. exact (Hm _ _ _ E).
Qed.

Lemma keeps_asyncio_sleep (ms : N) : keeps_session (asyncio_sleep ms).
Proof.
  intros w o w' H. unfold asyncio_sleep in H.
  destruct (sleeps (net w)) as [|[e|] rest]; now injection H as _ <-.
Qed.

Lemma keeps_stdout_read : keeps_session stdout_read.
Proof.
  intros w o w' H. unfold stdout_read in H.
  destruct (inbox (net w)) as [|[elapsed data| |e] rest]; now injection H as _ <-.
Qed.

Lemma keeps_stdin_write (data : string) : keeps_session (stdin_write data).
Proof. intros w o w' H. now injection H as _ <-. Qed.

Lemma keeps_stdin_drain : keeps_session stdin_drain.
Proof.
  intros w o w' H. unfold stdin_drain in H.
  destruct (drains (net w)) as [|[e|] rest]; now injection H as _ <-.
Qed.

Lemma read_loop_keeps (fuel : nat) :
  forall start_time timeout out w r w',
    read_loop fuel start_time timeout out w = (r, w') ->
    session_view w' = session_view w.
Proof.
  induction fuel as [|fuel IH]; intros start_time timeout out w r w' H.
  - now injection H as _ <-.
  - rewrite read_loop_unfold in H.
    destruct (clock (net w) - start_time <? timeout)%N; [|now injection H as _ <-].
    destruct (stdout_read w) as [[chunk|e] w1] eqn:Hread;
      pose proof (keeps_stdout_read _ _ _ Hread) as Hview; rewrite <- Hview.
    + destruct (truthy chunk); [destruct (has_prompt (out ++ chunk))|].
      * now injection H as _ <-.
      * exact (IH _ _ _ _ _ _ H).
      * exact (IH _ _ _ _ _ _ H).
    + destruct (is_TimeoutError e); [destruct (has_prompt out)|].
      * now injection H as _ <-.
      * exact (IH _ _ _ _ _ _ H).
      * now injection H as _ <-.
Qed.

Lemma keeps_read_until_timeout (timeout : N) :
  keeps_session (_read_until_timeout timeout).
Proof.
  intros w o w' H. unfold _read_until_timeout in H.
  destruct (negb (stdout (self w))); [now injection H as _ <-|].
  destruct (read_loop _ _ _ _ w) as [[out [e|]] w1] eqn:Hloop;
    pose proof (read_loop_keeps _ _ _ _ _ _ _ Hloop) as Hview.
  - destruct (is_Exception e); now injection H as _ <-.
  - now injection H as _ <-.
Qed.

Lemma keeps_send_command (cmd : string) (timeout : N) :
  keeps_session (send_command cmd timeout).
Proof.
  intros w o w' H. unfold send_command in H.
  destruct (negb (stdin (self w)) || negb (stdout (self w)));
    [now injection H as _ <-|].
  revert H. apply keeps_bind; [apply keeps_asyncio_sleep|intros _].
  apply keeps_bind; [apply keeps_stdin_write|intros _].
  apply keeps_bind; [apply keeps_stdin_drain|intros _].
  apply keeps_bind; [apply keeps_read_until_timeout|intros out].
  apply keeps_ret.
Qed.

Lemma keeps_execute_command (cmd : string) (timeout : N) :
  keeps_session (execute_command cmd timeout).
Proof.
  intros w o w' H. unfold execute_command in H.
  destruct (send_command cmd timeout w) as [[out|e] w1] eqn:Hsend;
    pose proof (keeps_send_command _ _ _ _ _ Hsend) as Hview.
  - now injection H as _ <-.
  - destruct (is_TimeoutError e); [now injection H as _ <-|].
    destruct (is_Exception e); now injection H as _ <-.
Qed.

(** ** One command *)

Lemma execute_command_command (cmd : string) (timeout : N) (w w' : World)
    (r : CommandResult) :
  execute_command cmd timeout w = (Return r, w') -> command r = cmd.
Proof.
  unfold execute_command.
  destruct (send_command cmd timeout w) as [[out|e] w1].
  - intros H. now injection H as <- _.
  - destruct (is_TimeoutError e); [intros H; now injection H as <- _|].
    destruct (is_Exception e); [intros H; now injection H as <- _|discriminate].
Qed.

Lemma execute_command_raises (cmd : string) (timeout : N) (w w' : World)
    (e : exn) :
  execute_command cmd timeout w = (Raise e, w') -> is_Exception e = false.
Proof.
  unfold execute_command.
  destruct (send_command cmd timeout w) as [[out|e0] w1]; [discriminate|].
  destruct (is_TimeoutError e0); [discriminate|].
  destruct (is_Exception e0) eqn:E; [discriminate|].
  intros H. now injection H as <- _.
Qed.

(** C3: whatever output [send_command] captures, [execute_command] reports
    the command as successful exactly when the lower-cased output contains
    none of [error], [invalid], [failed], [incorrect], [%]; a failure of this
    kind carries the rejection reason.  In particular the output
    [Router(config)#] is a success and [% Invalid input detected] is a
    rejection. *)
Theorem execute_command_classifies_by_keywords
    (cmd : string) (timeout : N) (w w' : World) (captured : string) :
  send_command cmd timeout w = (Return captured, w') ->
  exists r,
    execute_command cmd timeout w = (Return r, w')
    /\ command r = cmd
    /\ output r = captured
    /\ (success r = true <->
        forall k, In k ["error"; "invalid"; "failed"; "incorrect"; "%"] ->
                  ~ Substring k (lower captured))
    /\ (success r = true -> error r = None)
    /\ (success r = false -> error r = Some rejection_reason)
    /\ (captured = "Router(config)#" -> success r = true)
    /\ (captured = "% Invalid input detected" ->
        success r = false /\ error r = Some rejection_reason).
Proof.
  intros Hsend. unfold execute_command. rewrite Hsend.
  eexists. split; [reflexivity|]. cbn [command output success error].
  split; [reflexivity|]. split; [reflexivity|].
  split.
  { rewrite negb_true_iff. apply existsb_contains_spec. }
  split.
  { intros ->. reflexivity. }
  split.
  { intros ->. reflexivity. }
  split.
  { intros ->. reflexivity. }
  intros ->. split; reflexivity.
Qed.

Lemma execute_command_classifies_by_keywords_witness :
  send_command "hostname R1" default_timeout (connected_to obliging [])
  = (Return "Router(config)#",
     snd (send_command "hostname R1" default_timeout (connected_to obliging [])))
  /\ exists r,
       execute_command "hostname R1" default_timeout (connected_to obliging [])
       = (Return r,
          snd (send_command "hostname R1" default_timeout (connected_to obliging [])))
       /\ command r = "hostname R1"
       /\ output r = "Router(config)#"
       /\ (success r = true <->
           forall k, In k ["error"; "invalid"; "failed"; "incorrect"; "%"] ->
                     ~ Substring k (lower "Router(config)#"))
       /\ (success r = true -> error r = None)
       /\ (success r = false -> error r = Some rejection_reason)
       /\ ("Router(config)#" = "Router(config)#" -> success r = true)
       /\ ("Router(config)#" = "% Invalid input detected" ->
           success r = false /\ error r = Some rejection_reason).
Proof.
  split.
  - vm_compute. reflexivity.
  - apply (execute_command_classifies_by_keywords
             "hostname R1" default_timeout (connected_to obliging [])).
    vm_compute. reflexivity.
Defined.

(** A captured rejection without any prompt character is classified the
    same way once the window has run out. *)
Example rejection_without_prompt :
  fst (execute_command "hostname R1" default_timeout (connected_to rejecting []))
  = Return {| success := false; command := "hostname R1";
              output := "% Invalid input detected";
              error := Some rejection_reason |}.
Proof. vm_compute. reflexivity. Qed.

(** C2 (the code departs from the claim): a remote end that stays silent for
    the whole window of ten seconds.  The read loop runs the window out
    without any prompt character, yet the command is reported as a success
    with no failure reason; the timeout reason is not used. *)
Theorem silent_window_reported_as_success :
  let w := connected_to mute [] in
  let run := execute_command "hostname R1" default_timeout w in
  fst run = Return {| success := true; command := "hostname R1";
                      output := ""; error := None |}
  /\ (clock (net (snd run)) - (clock (net w) + 500) >= default_timeout)%N
  /\ has_prompt "" = false
  /\ Some (timeout_reason default_timeout)
     = Some "Таймаут выполнения команды (10.0с)".
Proof.
  vm_compute. repeat split; congruence.
Qed.

(** ** The three loops of the orchestrator *)

Lemma bind_run {S A B} (m : M S A) (k : A -> M S B) (s : S) :
  bind m k s =
  match m s with
  | (Return a, s') => k a s'
  | (Raise e, s') => (Raise e, s')
  end.
Proof. reflexivity. Qed.

Lemma lift_run {A} (m : M World A) (w : World) (f : Frame) :
  lift m (w, f) = (fst (m w), (snd (m w), f)).
Proof. unfold lift. cbn [fst snd]. now destruct (m w). Qed.

Lemma prefix_of_nil {A} (l : list A) : prefix_of [] l.
Proof. now exists l. Qed.

Lemma prefix_of_refl {A} (l : list A) : prefix_of l l.
Proof. exists []. now rewrite app_nil_r. Qed.

Lemma prefix_of_cons {A} (a : A) (p l : list A) :
  prefix_of p l -> prefix_of (a :: p) (a :: l).
Proof. intros [rest ->]. now exists rest. Qed.

Create HintDb phases.
#[local] Hint Resolve prefix_of_nil prefix_of_refl prefix_of_cons : phases.

(** What the entry loop adds to [results]: results of an initial segment of
    the entry commands; on normal completion either all of them, all
    successful, or a run of successes closed by the failure that left the
    loop and cleared [all_success]. *)
Lemma entry_loop_shape (delay : N) (cmds : list string) :
  forall s o s',
    entry_loop delay cmds s = (o, s') ->
    exists rs,
      results (snd s') = (results (snd s) ++ rs)%list
      /\ prefix_of (map command rs) cmds
      /\ (o = Return tt ->
          (map command rs = cmds /\ forallb success rs = true
           /\ all_success (snd s') = all_success (snd s))
          \/ (exists pre bad,
                rs = (pre ++ [bad])%list /\ forallb success pre = true
                /\ success bad = false /\ all_success (snd s') = false)).
Proof.
  induction cmds as [|cmd rest IH]; intros [w f] o s' H; cbn [entry_loop] in H.
  - injection H as <- <-. exists []. rewrite app_nil_r.
    split; [reflexivity|]. split; [auto with phases|]. intros _. now left.
  - rewrite bind_run, lift_run in H.
    destruct (execute_command cmd default_timeout w) as [[r|e] w1] eqn:Hcmd;
      cbn [fst snd] in H.
    + pose proof (execute_command_command _ _ _ _ _ Hcmd) as Hname.
      rewrite bind_run in H. unfold append_result in H. cbn [fst snd] in H.
      destruct (success r) eqn:Hok; cbn [negb] in H.
      * rewrite bind_run, lift_run in H.
        destruct (asyncio_sleep delay w1) as [[[]|e] w2]; cbn [fst snd] in H.
        -- apply IH in H. destruct H as (rs & Hres & Hpre & Hret).
           cbn [snd results all_success] in *.
           exists (r :: rs). rewrite Hres, <- app_assoc. split; [reflexivity|].
           cbn [map]. rewrite Hname. split; [auto with phases|].
           intros Ho. destruct (Hret Ho) as [(Hall & Hsucc & Hflag) | (pre & bad & -> & Hpre' & Hbad & Hflag)].
           ++ left. cbn [forallb]. rewrite Hall, Hok, Hsucc. auto.
           ++ right. exists (r :: pre), bad. cbn [forallb]. rewrite Hok, Hpre'. auto.
        -- injection H as <- <-. cbn [snd results]. exists [r].
           split; [reflexivity|]. cbn [map]. rewrite Hname.
           split; [auto with phases|]. discriminate.
      * unfold clear_all_success in H. injection H as <- <-.
        cbn [fst snd results all_success]. exists [r].
        split; [reflexivity|]. cbn [map]. rewrite Hname.
        split; [auto with phases|]. intros _. right. now exists [], r.
    + injection H as <- <-. cbn [snd]. exists []. rewrite app_nil_r.
      split; [reflexivity|]. split; [auto with phases|]. discriminate.
Qed.

(** What the main loop adds: on normal completion one result for every
    command, whatever their outcomes; [all_success] survives only if all of
    them succeeded. *)
Lemma main_loop_shape (delay : N) (cmds : list string) :
  forall s o s',
    main_loop delay cmds s = (o, s') ->
    exists rs,
      results (snd s') = (results (snd s) ++ rs)%list
      /\ prefix_of (map command rs) cmds
      /\ (o = Return tt ->
          map command rs = cmds
          /\ all_success (snd s') = all_success (snd s) && forallb success rs).
Proof.
  induction cmds as [|cmd rest IH]; intros [w f] o s' H; cbn [main_loop] in H.
  - injection H as <- <-. exists []. rewrite app_nil_r.
    split; [reflexivity|]. split; [auto with phases|]. intros _.
    cbn. now rewrite andb_true_r.
  - rewrite bind_run, lift_run in H.
    destruct (execute_command cmd default_timeout w) as [[r|e] w1] eqn:Hcmd;
      cbn [fst snd] in H.
    + pose proof (execute_command_command _ _ _ _ _ Hcmd) as Hname.
      rewrite bind_run in H. unfold append_result in H. cbn [fst snd] in H.
      rewrite bind_run in H.
      assert (Hflag :
        (if negb (success r) then clear_all_success else ret tt)
          (w1, {| results := (results f ++ [r])%list; all_success := all_success f |})
        = (Return tt,
           (w1, {| results := (results f ++ [r])%list;
                   all_success := all_success f && success r |}))).
      { destruct (success r); cbn [negb].
        - unfold ret. now rewrite andb_true_r.
        - unfold clear_all_success. cbn [fst snd results]. now rewrite andb_false_r. }
      rewrite Hflag in H. clear Hflag.
      rewrite bind_run, lift_run in H.
      destruct (asyncio_sleep delay w1) as [[[]|e] w2]; cbn [fst snd] in H.
      * apply IH in H. destruct H as (rs & Hres & Hpre & Hret).
        cbn [snd results all_success] in *.
        exists (r :: rs). rewrite Hres, <- app_assoc. split; [reflexivity|].
        cbn [map]. rewrite Hname. split; [auto with phases|].
        intros Ho. destruct (Hret Ho) as [Hall Hflag].
        cbn [forallb]. rewrite Hall, Hflag, andb_assoc. auto.
      * injection H as <- <-. cbn [snd results]. exists [r].
        split; [reflexivity|]. cbn [map]. rewrite Hname.
        split; [auto with phases|]. discriminate.
    + injection H as <- <-. cbn [snd]. exists []. rewrite app_nil_r.
      split; [reflexivity|]. split; [auto with phases|]. discriminate.
Qed.

(** What the exit loop adds: on normal completion one result for every exit
    command; [all_success] is not touched. *)
Lemma exit_loop_shape (delay : N) (cmds : list string) :
  forall s o s',
    exit_loop delay cmds s = (o, s') ->
    exists rs,
      results (snd s') = (results (snd s) ++ rs)%list
      /\ prefix_of (map command rs) cmds
      /\ all_success (snd s') = all_success (snd s)
      /\ (o = Return tt -> map command rs = cmds).
Proof.
  induction cmds as [|cmd rest IH]; intros [w f] o s' H; cbn [exit_loop] in H.
  - injection H as <- <-. exists []. rewrite app_nil_r.
    split; [reflexivity|]. split; [auto with phases|]. auto.
  - rewrite bind_run, lift_run in H.
    destruct (execute_command cmd default_timeout w) as [[r|e] w1] eqn:Hcmd;
      cbn [fst snd] in H.
    + pose proof (execute_command_command _ _ _ _ _ Hcmd) as Hname.
      rewrite bind_run in H. unfold append_result in H. cbn [fst snd] in H.
      rewrite bind_run, lift_run in H.
      destruct (asyncio_sleep delay w1) as [[[]|e] w2]; cbn [fst snd] in H.
      * apply IH in H. destruct H as (rs & Hres & Hpre & Hflag & Hret).
        cbn [snd results all_success] in *.
        exists (r :: rs). rewrite Hres, <- app_assoc. split; [reflexivity|].
        cbn [map]. rewrite Hname. split; [auto with phases|].
        split; [assumption|]. intros Ho. now rewrite (Hret Ho).
      * injection H as <- <-. cbn [snd results all_success]. exists [r].
        split; [reflexivity|]. cbn [map]. rewrite Hname.
        split; [auto with phases|]. split; [reflexivity|discriminate].
    + injection H as <- <-. cbn [snd]. exists []. rewrite app_nil_r.
      split; [reflexivity|]. split; [auto with phases|].
      split; [reflexivity|discriminate].
Qed.

(** ** The body of [execute_commands] *)

Ltac conj_split := repeat match goal with |- _ /\ _ => split end.

(** However the body ends, [results] holds results of an initial segment of
    the entry commands, then of the main commands, then of the exit commands;
    when it ends normally, the report has the anatomy [phases]. *)
Lemma execute_commands_body_shape (commands : list string)
    (equipment_type : EquipmentType) (delay : N) (w : World)
    (o : outcome Report) (s' : St) :
  execute_commands_body commands equipment_type delay
    (w, {| results := []; all_success := true |}) = (o, s') ->
  exists entry_rs main_rs exit_rs,
    results (snd s') = (entry_rs ++ main_rs ++ exit_rs)%list
    /\ prefix_of (map command entry_rs) (_get_config_mode_commands equipment_type)
    /\ prefix_of (map command main_rs)
         (main_commands commands (_get_config_mode_commands equipment_type))
    /\ prefix_of (map command exit_rs) (_get_exit_commands equipment_type)
    /\ (forall report, o = Return report ->
          phases commands equipment_type report entry_rs main_rs exit_rs).
Proof.
  unfold execute_commands_body. intros H.
  rewrite bind_run in H.
  destruct (entry_loop delay _ _) as [[[]|e] s1] eqn:Hentry;
    apply entry_loop_shape in Hentry;
    destruct Hentry as (entry_rs & Hres1 & Hpre1 & Hret1);
    cbn [snd results all_success app] in Hres1, Hret1.
  2:{ injection H as <- <-. exists entry_rs, [], []. rewrite Hres1, !app_nil_r.
      conj_split; auto with phases; intros ? ?; discriminate. }
  rewrite bind_run in H. unfold read_all_success in H.
  destruct (all_success (snd s1)) eqn:Hflag1.
  - (* the entry phase ran through *)
    destruct (Hret1 eq_refl) as [(Hall1 & Hsucc1 & _) | (pre & bad & _ & _ & _ & Hno)];
      [|congruence].
    rewrite bind_run in H.
    destruct (main_loop delay _ s1) as [[[]|e] s2] eqn:Hmain;
      apply main_loop_shape in Hmain;
      destruct Hmain as (main_rs & Hres2 & Hpre2 & Hret2).
    2:{ injection H as <- <-. exists entry_rs, main_rs, [].
        rewrite Hres2, Hres1, !app_nil_r.
        conj_split; auto with phases; intros ? ?; discriminate. }
    destruct (Hret2 eq_refl) as [Hall2 Hflag2]. rewrite Hflag1 in Hflag2.
    cbn [andb] in Hflag2.
    rewrite bind_run in H.
    destruct (exit_loop delay _ s2) as [[[]|e] s3] eqn:Hexit;
      apply exit_loop_shape in Hexit;
      destruct Hexit as (exit_rs & Hres3 & Hpre3 & Hflag3 & Hret3).
    2:{ injection H as <- <-. exists entry_rs, main_rs, exit_rs.
        rewrite Hres3, Hres2, Hres1, <- !app_assoc.
        conj_split; auto with phases; intros ? ?; discriminate. }
    injection H as <- <-. exists entry_rs, main_rs, exit_rs.
    rewrite Hres3, Hres2, Hres1, <- !app_assoc.
    conj_split; auto with phases.
    intros report [= <-]. unfold phases.
    cbn [report_results report_error successful_commands total_commands
         report_success].
    rewrite Hflag3, Hflag2.
    conj_split; auto.
  - (* the entry phase stopped at a failure *)
    destruct (Hret1 eq_refl) as [(_ & _ & Hyes) | (pre & bad & Hsplit & Hpre & Hbad & _)];
      [congruence|].
    unfold ret at 1 in H.
    rewrite bind_run in H. cbn beta iota in H. rewrite bind_run in H.
    destruct (exit_loop delay _ s1) as [[[]|e] s3] eqn:Hexit;
      apply exit_loop_shape in Hexit;
      destruct Hexit as (exit_rs & Hres3 & Hpre3 & Hflag3 & Hret3).
    2:{ injection H as <- <-. exists entry_rs, [], exit_rs.
        rewrite Hres3, Hres1. cbn [app].
        conj_split; auto with phases; intros ? ?; discriminate. }
    injection H as <- <-. exists entry_rs, [], exit_rs.
    rewrite Hres3, Hres1. cbn [app].
    conj_split; auto with phases.
    intros report [= <-]. unfold phases.
    cbn [report_results report_error successful_commands total_commands
         report_success].
    rewrite Hflag3, Hflag1.
    conj_split; auto.
    right. exists pre, bad. subst entry_rs. conj_split; auto.
Qed.

(** ** Reports *)

(** The two ways [execute_commands] returns a report: from the end of its
    [try], without a top-level error, or from its handler. *)
Lemma execute_commands_returns (commands : list string)
    (equipment_type : EquipmentType) (delay : N) (w w' : World)
    (report : Report) :
  execute_commands commands equipment_type delay w = (Return report, w') ->
  (exists s',
     execute_commands_body commands equipment_type delay
       (w, {| results := []; all_success := true |}) = (Return report, s')
     /\ report_error report = None)
  \/ (exists e s',
        execute_commands_body commands equipment_type delay
          (w, {| results := []; all_success := true |}) = (Raise e, s')
        /\ report_success report = false
        /\ successful_commands report = 0
        /\ report_results report = results (snd s')
        /\ report_error report = Some (str e)).
Proof.
  unfold execute_commands. intros H.
  destruct (execute_commands_body _ _ _ _) as [[r|e] s'] eqn:Hbody.
  - left. injection H as <- <-. exists s'. split; [reflexivity|].
    destruct (execute_commands_body_shape _ _ _ _ _ _ Hbody)
      as (en & ma & ex & _ & _ & _ & _ & Hph).
    now destruct (Hph r eq_refl) as (_ & _ & Herr & _).
  - right. destruct (is_Exception e); [|discriminate].
    injection H as <- <-. now exists e, s'.
Qed.

Lemma execute_commands_normal (commands : list string)
    (equipment_type : EquipmentType) (delay : N) (w w' : World)
    (report : Report) :
  execute_commands commands equipment_type delay w = (Return report, w') ->
  report_error report = None ->
  exists entry_rs main_rs exit_rs,
    phases commands equipment_type report entry_rs main_rs exit_rs.
Proof.
  intros H Herr.
  destruct (execute_commands_returns _ _ _ _ _ _ H)
    as [(s' & Hbody & _) | (e & s' & _ & _ & _ & _ & Hsome)]; [|congruence].
  destruct (execute_commands_body_shape _ _ _ _ _ _ Hbody)
    as (en & ma & ex & _ & _ & _ & _ & Hph).
  exists en, ma, ex. now apply Hph.
Qed.

(** On every path the attempted commands are an initial segment of the
    entry commands, then of the main commands, then of the exit commands. *)
Lemma execute_commands_trace (commands : list string)
    (equipment_type : EquipmentType) (delay : N) (w w' : World)
    (report : Report) :
  execute_commands commands equipment_type delay w = (Return report, w') ->
  exists p1 p2 p3,
    attempted (report_results report) = (p1 ++ p2 ++ p3)%list
    /\ prefix_of p1 (_get_config_mode_commands equipment_type)
    /\ prefix_of p2
         (main_commands commands (_get_config_mode_commands equipment_type))
    /\ prefix_of p3 (_get_exit_commands equipment_type).
Proof.
  intros H.
  assert (Hres : exists o s',
             execute_commands_body commands equipment_type delay
               (w, {| results := []; all_success := true |}) = (o, s')
             /\ report_results report = results (snd s')).
  { destruct (execute_commands_returns _ _ _ _ _ _ H)
      as [(s' & Hbody & _) | (e & s' & Hbody & _ & _ & Hr & _)].
    - exists (Return report), s'. split; [assumption|].
      unfold execute_commands_body in Hbody.
      repeat (rewrite bind_run in Hbody;
              match type of Hbody with
              | context [match ?m ?s with _ => _ end] =>
                  destruct (m s) as [[?|?] ?]; [|discriminate]
              end).
      now injection Hbody as <- <-.
    - now exists (Raise e), s'. }
  destruct Hres as (o & s' & Hbody & ->).
  destruct (execute_commands_body_shape _ _ _ _ _ _ Hbody)
    as (en & ma & ex & Hr & H1 & H2 & H3 & _).
  exists (map command en), (map command ma), (map command ex).
  unfold attempted. now rewrite Hr, !map_app.
Qed.

(** ** Properties of a batch *)

Lemma entry_loop_first_fails (delay : N) (first : string)
    (others : list string) (w w1 : World) (f : Frame) (bad : CommandResult) :
  execute_command first default_timeout w = (Return bad, w1) ->
  success bad = false ->
  entry_loop delay (first :: others) (w, f)
  = (Return tt,
     (w1, {| results := (results f ++ [bad])%list; all_success := false |})).
Proof.
  intros Hfirst Hbad. cbn [entry_loop].
  rewrite bind_run, lift_run, Hfirst. cbn [fst snd].
  rewrite bind_run. unfold append_result. cbn [fst snd].
  rewrite Hbad. reflexivity.
Qed.

(** C4, as amended: when the first entry command fails, the results of
    every report are that failure followed by results of exit commands, in
    order: no further entry command and no caller command is attempted, and
    the batch is marked as failed.  When the batch returns from the end of
    its [try] (no top-level error), every exit command was attempted and the
    number of results is the one entry command attempted plus the number of
    exit commands. *)
Theorem first_entry_failure_skips_to_exit
    (commands : list string) (equipment_type : EquipmentType) (delay : N)
    (w w1 w' : World) (first : string) (others : list string)
    (bad : CommandResult) (report : Report) :
  _get_config_mode_commands equipment_type = first :: others ->
  execute_command first default_timeout w = (Return bad, w1) ->
  success bad = false ->
  execute_commands commands equipment_type delay w = (Return report, w') ->
  exists exit_rs,
    report_results report = bad :: exit_rs
    /\ prefix_of (attempted exit_rs) (_get_exit_commands equipment_type)
    /\ report_success report = false
    /\ (report_error report = None ->
        attempted exit_rs = _get_exit_commands equipment_type
        /\ attempted (report_results report)
           = first :: _get_exit_commands equipment_type
        /\ length (report_results report)
           = 1 + length (_get_exit_commands equipment_type)).
Proof.
  intros Hconfig Hfirst Hbad Hrun.
  unfold execute_commands, execute_commands_body in Hrun.
  rewrite Hconfig in Hrun.
  rewrite bind_run, (entry_loop_first_fails _ _ _ _ _ _ _ Hfirst Hbad) in Hrun.
  rewrite bind_run in Hrun. unfold read_all_success in Hrun.
  cbn [fst snd results all_success app] in Hrun.
  rewrite bind_run in Hrun. unfold ret at 1 in Hrun.
  cbn beta iota in Hrun. rewrite bind_run in Hrun.
  destruct (exit_loop delay _ _) as [[[]|e] s3] eqn:Hexit;
    apply exit_loop_shape in Hexit;
    destruct Hexit as (exit_rs & Hres & Hprefix & Hflag & Hret);
    cbn [snd results all_success app] in Hres, Hflag.
  - injection Hrun as <- <-. cbn [report_results report_success report_error].
    exists exit_rs. unfold attempted in *. rewrite Hres, Hflag.
    conj_split; auto. intros _. cbn [map length].
    rewrite (Hret eq_refl), (execute_command_command _ _ _ _ _ Hfirst),
      <- (Hret eq_refl), length_map.
    auto.
  - destruct (is_Exception e); [|discriminate].
    injection Hrun as <- <-. cbn [report_results report_success report_error].
    exists exit_rs. rewrite Hres. conj_split; auto. discriminate.
Qed.

Lemma first_entry_failure_skips_to_exit_witness :
  exists report w',
    _get_config_mode_commands CISCO_IOS = ["enable"; "configure terminal"]
    /\ success (Build_CommandResult false "enable" "% Invalid input detected"
                  (Some rejection_reason)) = false
    /\ execute_commands ["hostname R1"] CISCO_IOS 1000 (connected_to rejecting [])
       = (Return report, w')
    /\ report_error report = None
    /\ exists exit_rs,
         report_results report
         = Build_CommandResult false "enable" "% Invalid input detected"
             (Some rejection_reason) :: exit_rs
         /\ prefix_of (attempted exit_rs) (_get_exit_commands CISCO_IOS)
         /\ report_success report = false
         /\ (report_error report = None ->
             attempted exit_rs = _get_exit_commands CISCO_IOS
             /\ attempted (report_results report)
                = "enable" :: _get_exit_commands CISCO_IOS
             /\ length (report_results report)
                = 1 + length (_get_exit_commands CISCO_IOS)).
Proof.
  eexists. eexists.
  split; [reflexivity|]. split; [reflexivity|].
  split; [lazy; reflexivity|]. split; [reflexivity|].
  eapply (first_entry_failure_skips_to_exit
            ["hostname R1"] CISCO_IOS 1000 (connected_to rejecting [])).
  - reflexivity.
  - lazy. reflexivity.
  - reflexivity.
  - lazy. reflexivity.
Defined.

(** C4 as it was stated fails: the first entry command fails, and
    [asyncio.sleep] raises after the first exit command.  The handler returns
    the two results gathered so far; the second exit command was never
    attempted, and two is not one plus the number of exit commands. *)
Lemma first_entry_failure_exit_phase_cut_short :
  ~ (forall (commands : list string) (equipment_type : EquipmentType)
            (delay : N) (w w1 w' : World) (first : string)
            (others : list string) (bad : CommandResult) (report : Report),
        _get_config_mode_commands equipment_type = first :: others ->
        execute_command first default_timeout w = (Return bad, w1) ->
        success bad = false ->
        execute_commands commands equipment_type delay w = (Return report, w') ->
        attempted (report_results report)
        = first :: _get_exit_commands equipment_type
        /\ length (report_results report)
           = 1 + length (_get_exit_commands equipment_type)).
Proof.
  intros H.
  destruct (H ["hostname R1"] CISCO_IOS 1000%N
              (connected_to rejecting
                 [None; None; Some (ValueError "Invalid delay: NaN not supported")])
              (snd (execute_command "enable" default_timeout
                      (connected_to rejecting
                         [None; None;
                          Some (ValueError "Invalid delay: NaN not supported")])))
              (snd (execute_commands ["hostname R1"] CISCO_IOS 1000
                      (connected_to rejecting
                         [None; None;
                          Some (ValueError "Invalid delay: NaN not supported")])))
              "enable" ["configure terminal"]
              (Build_CommandResult false "enable" "% Invalid input detected"
                 (Some rejection_reason))
              {| report_success := false; equipment_type_value := "cisco_ios";
                 total_commands := 1; successful_commands := 0;
                 report_results :=
                   [Build_CommandResult false "enable" "% Invalid input detected"
                      (Some rejection_reason);
                    Build_CommandResult false "end" "% Invalid input detected"
                      (Some rejection_reason)];
                 report_error := Some "Invalid delay: NaN not supported" |}
              eq_refl) as [_ Hcount].
  - vm_compute. reflexivity.
  - reflexivity.
  - vm_compute. reflexivity.
  - cbn in Hcount. discriminate.
Qed.




Lemma main_commands_nil (commands : list string) :
  main_commands commands [] = commands.
Proof.
  unfold main_commands. induction commands as [|c cs IH]; [reflexivity|].
  cbn. f_equal. apply IH.
Qed.

(** C10: MikroTik has no entry and no exit commands; a batch that returns
    from the end of its [try] attempted exactly the caller's commands, in
    order, one result each. *)
Theorem mikrotik_runs_only_caller_commands
    (commands : list string) (delay : N) (w w' : World) (report : Report) :
  execute_commands commands MIKROTIK delay w = (Return report, w') ->
  report_error report = None ->
  _get_config_mode_commands MIKROTIK = []
  /\ _get_exit_commands MIKROTIK = []
  /\ attempted (report_results report) = commands
  /\ length (report_results report) = length commands.
Proof.
  intros Hrun Herr.
  destruct (execute_commands_normal _ _ _ _ _ _ Hrun Herr)
    as (entry_rs & main_rs & exit_rs & Hres & Hexit & _ & _ & _ & Hcases).
  pose proof (main_commands_nil commands) as Hmain.
  cbn [_get_config_mode_commands _get_exit_commands] in *.
  assert (Hcmds : attempted (report_results report) = commands).
  { unfold attempted. rewrite Hres, !map_app, Hexit, app_nil_r.
    destruct Hcases
      as [(Hentry & _ & Hm & _) | (pre & bad & -> & _ & _ & [rest Hprefix] & _)].
    - now rewrite Hentry, Hm, Hmain.
    - rewrite map_app in Hprefix. destruct (map command pre); discriminate. }
  conj_split; auto.
  rewrite <- Hcmds. unfold attempted. now rewrite length_map.
Qed.

Lemma mikrotik_runs_only_caller_commands_witness :
  exists report w',
    execute_commands ["/ip address print"; "/system identity set name=R1"]
      MIKROTIK 1000 (connected_to obliging []) = (Return report, w')
    /\ report_error report = None
    /\ _get_config_mode_commands MIKROTIK = []
    /\ _get_exit_commands MIKROTIK = []
    /\ attempted (report_results report)
       = ["/ip address print"; "/system identity set name=R1"]
    /\ length (report_results report) = 2.
Proof.
  eexists. eexists.
  split; [lazy; reflexivity|]. split; [reflexivity|].
  eapply (mikrotik_runs_only_caller_commands
            ["/ip address print"; "/system identity set name=R1"]
            1000 (connected_to obliging [])).
  - lazy. reflexivity.
  - reflexivity.
Defined.

Lemma mem_spec (cmd : string) (cmds : list string) :
  mem cmd cmds = true <-> In cmd cmds.
Proof.
  unfold mem. rewrite existsb_exists. split.
  - intros (x & Hin & Heq). apply String.eqb_eq in Heq. now subst.
  - intros Hin. exists cmd. split; [assumption | apply String.eqb_refl].
Qed.

Lemma main_commands_exclude (commands config : list string) (c : string) :
  In c config -> ~ In c (main_commands commands config).
Proof.
  intros Hin Hmain. unfold main_commands in Hmain.
  apply filter_In in Hmain. destruct Hmain as [_ Hneg].
  apply mem_spec in Hin. rewrite Hin in Hneg. discriminate.
Qed.

Lemma count_occ_prefix (p l : list string) (c : string) :
  prefix_of p l -> count_occ string_dec p c <= count_occ string_dec l c.
Proof. intros [rest ->]. rewrite count_occ_app. lia. Qed.

(** In every command table an entry command is listed once among the entry
    commands and is not an exit command. *)
Lemma entry_commands_table (equipment_type : EquipmentType) (c : string) :
  In c (_get_config_mode_commands equipment_type) ->
  count_occ string_dec (_get_config_mode_commands equipment_type) c = 1
  /\ count_occ string_dec (_get_exit_commands equipment_type) c = 0.
Proof.
  destruct equipment_type; cbn [_get_config_mode_commands _get_exit_commands In];
    intuition (subst; split; reflexivity).
Qed.

(** C7: an entry command of the profile is filtered out of the main phase,
    so among the commands a batch attempted it occurs at most once, whichever
    way the batch returns, and exactly once (in the entry phase) when the
    batch succeeds. *)
Theorem entry_command_not_repeated
    (commands : list string) (equipment_type : EquipmentType) (delay : N)
    (w w' : World) (report : Report) (c : string) :
  In c (_get_config_mode_commands equipment_type) ->
  execute_commands commands equipment_type delay w = (Return report, w') ->
  ~ In c (filter (fun cmd => negb (mem cmd (_get_config_mode_commands equipment_type)))
                 commands)
  /\ count_occ string_dec (attempted (report_results report)) c <= 1
  /\ (report_success report = true ->
      count_occ string_dec (attempted (report_results report)) c = 1).
Proof.
  intros Hin Hrun.
  pose proof (main_commands_exclude commands _ c Hin) as Hskip.
  destruct (entry_commands_table _ _ Hin) as [Hone Hzero].
  assert (Hmain0 : count_occ string_dec
                     (main_commands commands (_get_config_mode_commands equipment_type)) c = 0)
    by now apply count_occ_not_In.
  split; [exact Hskip|]. split.
  - destruct (execute_commands_trace _ _ _ _ _ _ Hrun)
      as (p1 & p2 & p3 & -> & H1 & H2 & H3).
    rewrite !count_occ_app.
    pose proof (count_occ_prefix _ _ c H1).
    pose proof (count_occ_prefix _ _ c H2).
    pose proof (count_occ_prefix _ _ c H3).
    lia.
  - intros Hok.
    destruct (execute_commands_returns _ _ _ _ _ _ Hrun)
      as [(s' & _ & Herr) | (e & s' & _ & Hfail & _)]; [|congruence].
    destruct (execute_commands_normal _ _ _ _ _ _ Hrun Herr)
      as (entry_rs & main_rs & exit_rs & Hres & Hexit & _ & _ & _ & Hcases).
    destruct Hcases
      as [(Hentry & _ & Hmain & _) | (pre & bad & _ & _ & _ & _ & _ & Hflag)];
      [|congruence].
    unfold attempted. rewrite Hres, !map_app, !count_occ_app.
    rewrite Hentry, Hmain, Hexit. lia.
Qed.

Lemma entry_command_not_repeated_witness :
  exists report w',
    In "enable" (_get_config_mode_commands CISCO_IOS)
    /\ execute_commands ["enable"; "hostname R1"; "enable"] CISCO_IOS 1000
         (connected_to obliging []) = (Return report, w')
    /\ attempted (report_results report)
       = ["enable"; "configure terminal"; "hostname R1"; "end"; "exit"]
    /\ ~ In "enable"
         (filter (fun cmd => negb (mem cmd (_get_config_mode_commands CISCO_IOS)))
                 ["enable"; "hostname R1"; "enable"])
    /\ count_occ string_dec (attempted (report_results report)) "enable" <= 1
    /\ (report_success report = true ->
        count_occ string_dec (attempted (report_results report)) "enable" = 1).
Proof.
  eexists. eexists.
  split; [now left|]. split; [lazy; reflexivity|]. split; [reflexivity|].
  eapply (entry_command_not_repeated
            ["enable"; "hostname R1"; "enable"] CISCO_IOS 1000
            (connected_to obliging [])).
  - now left.
  - lazy. reflexivity.
Defined.

(** C1 (the code departs from the claim): [asyncio.sleep] raises after the
    first entry command has succeeded.  The handler of [execute_commands]
    returns the results gathered so far, one of them successful, together
    with a successful count of zero. *)
Theorem exception_path_reports_zero_successes :
  exists report w',
    execute_commands ["hostname R1"] CISCO_IOS 1000
      (connected_to obliging [None; Some (ValueError "Invalid delay: NaN not supported")])
    = (Return report, w')
    /\ report_error report = Some "Invalid delay: NaN not supported"
    /\ attempted (report_results report) = ["enable"]
    /\ length (filter success (report_results report)) = 1
    /\ successful_commands report = 0
    /\ successful_commands report
       <> length (filter success (report_results report)).
Proof.
  eexists. eexists. split; [lazy; reflexivity|].
  cbn. repeat split; discriminate.
Qed.

(** The invariant does hold for every report returned from the end of the
    [try]. *)
Lemma successful_commands_counts_on_normal_return
    (commands : list string) (equipment_type : EquipmentType) (delay : N)
    (w w' : World) (report : Report) :
  execute_commands commands equipment_type delay w = (Return report, w') ->
  report_error report = None ->
  successful_commands report = length (filter success (report_results report)).
Proof.
  intros Hrun Herr.
  destruct (execute_commands_normal _ _ _ _ _ _ Hrun Herr)
    as (en & ma & ex & _ & _ & _ & Hcount & _).
  exact Hcount.
Qed.

(** ** Resolving the equipment type *)

(** C8: the conversion of the device type string never raises and leaves the
    world alone; a string that, lower-cased, is the value of a member yields
    that member, and any other string yields [CISCO_IOS]. *)
Theorem unknown_device_type_defaults_to_cisco
    (device_type_str : string) (w : World) :
  exists e,
    device_type_enum_of device_type_str w = (Return e, w)
    /\ (forall t, lower device_type_str = value t -> e = t)
    /\ (lower device_type_str <> "cisco_ios" ->
        lower device_type_str <> "juniper_junos" ->
        lower device_type_str <> "huawei" ->
        lower device_type_str <> "mikrotik" ->
        e = CISCO_IOS).
Proof.
  unfold device_type_enum_of, try_except, EquipmentType_call.
  destruct (String.eqb_spec (lower device_type_str) "cisco_ios") as [H1|H1].
  { exists CISCO_IOS. split; [reflexivity|]. split; [|reflexivity].
    intros t Ht. rewrite H1 in Ht. now destruct t. }
  destruct (String.eqb_spec (lower device_type_str) "juniper_junos") as [H2|H2].
  { exists JUNIPER_JUNOS. split; [reflexivity|]. split; [|congruence].
    intros t Ht. rewrite H2 in Ht. now destruct t. }
  destruct (String.eqb_spec (lower device_type_str) "huawei") as [H3|H3].
  { exists HUAWEI. split; [reflexivity|]. split; [|congruence].
    intros t Ht. rewrite H3 in Ht. now destruct t. }
  destruct (String.eqb_spec (lower device_type_str) "mikrotik") as [H4|H4].
  { exists MIKROTIK. split; [reflexivity|]. split; [|congruence].
    intros t Ht. rewrite H4 in Ht. now destruct t. }
  exists CISCO_IOS. cbn. split; [reflexivity|]. split; [|reflexivity].
  intros t Ht. destruct t; cbn in Ht; congruence.
Qed.

Example mixed_case_device_type :
  fst (device_type_enum_of "MikroTik" (not_yet_connected mute)) = Return MIKROTIK.
Proof. reflexivity. Qed.

Example unknown_device_type :
  fst (device_type_enum_of "arista_eos" (not_yet_connected mute)) = Return CISCO_IOS.
Proof. reflexivity. Qed.

(** [lower] turns the Kelvin sign into [k], so this spelling is MikroTik; the
    dotted capital I becomes an [i] with a combining dot, which is no
    [i]. *)
Example kelvin_sign_device_type :
  fst (device_type_enum_of ("mi" ++ kelvin_sign ++ "rotik")
         (not_yet_connected mute)) = Return MIKROTIK
  /\ fst (device_type_enum_of ("m" ++ dotted_capital_i ++ "krotik")
            (not_yet_connected mute)) = Return CISCO_IOS.
Proof. split; reflexivity. Qed.

(** ** The validator *)

Lemma for_patterns_appends (unicode_word : string -> bool) (cmd : string)
    (patterns : list (string * string)) :
  forall acc,
    for_patterns unicode_word cmd (lower cmd) patterns acc
    = (acc ++ warnings_of_command unicode_word patterns cmd)%list.
Proof.
  unfold warnings_of_command, read_only, warning_text.
  induction patterns as [|[pattern description] rest IH]; intros acc;
    cbn [for_patterns].
  - destruct (existsb _ safe_keywords); cbn; now rewrite app_nil_r.
  - rewrite IH. cbn [filter fst snd].
    destruct (re_search unicode_word pattern (lower cmd)); [|reflexivity].
    destruct (existsb _ safe_keywords); cbn [negb]; [reflexivity|].
    cbn [map]. now rewrite <- app_assoc.
Qed.

Lemma for_commands_appends (unicode_word : string -> bool)
    (patterns : list (string * string)) (commands : list string) :
  forall acc,
    for_commands unicode_word commands patterns acc
    = (acc ++ spec_warnings unicode_word patterns commands)%list.
Proof.
  unfold spec_warnings.
  induction commands as [|cmd rest IH]; intros acc; cbn [for_commands flat_map].
  - now rewrite app_nil_r.
  - now rewrite IH, for_patterns_appends, app_assoc.
Qed.

(** C9: [validate_commands] is a function of the command list and the
    equipment type alone (and of what the Unicode database says of the
    characters, [unicode_word]).  Its warnings are, command by command in the
    order given, nothing for a command that contains one of the read-only
    markers, and otherwise one warning for each pattern of the table that
    matches the lower-cased command, in table order; [is_safe] holds exactly
    when there is no warning. *)
Theorem validate_commands_refines_spec
    (unicode_word : string -> bool)
    (commands : list string) (equipment_type : EquipmentType) :
  warnings (validate_commands unicode_word commands equipment_type)
  = flat_map
      (fun cmd =>
         if existsb (fun marker => contains marker (lower cmd))
                    ["show"; "display"; "get"; "view"; "print"]
         then []
         else map (fun rule => ("WARNING: " ++ snd rule ++ ": " ++ cmd)%string)
                  (filter (fun rule =>
                             re_search unicode_word (fst rule) (lower cmd))
                          (dangerous_patterns equipment_type)))
      commands
  /\ (is_safe (validate_commands unicode_word commands equipment_type) = true <->
      warnings (validate_commands unicode_word commands equipment_type) = [])
  /\ dangerous_commands_count
       (validate_commands unicode_word commands equipment_type)
     = length (warnings (validate_commands unicode_word commands equipment_type)).
Proof.
  unfold validate_commands. cbn [warnings is_safe dangerous_commands_count].
  rewrite for_commands_appends. cbn [app].
  split; [reflexivity|]. split; [|reflexivity].
  rewrite Nat.eqb_eq. apply length_zero_iff_nil.
Qed.

Example validate_commands_sample :
  warnings (validate_commands all_letters
              ["write memory"; "show reload"; "no shutdown"; "RELOAD now"]
              CISCO_IOS)
  = ["WARNING: Сохранение конфигурации (write memory): write memory";
     "WARNING: Сохранение конфигурации (write): write memory";
     "WARNING: Включение интерфейса (no shutdown): no shutdown";
     "WARNING: Отключение интерфейса (shutdown): no shutdown";
     "WARNING: Перезагрузка оборудования (reload): RELOAD now"].
Proof. vm_compute. reflexivity. Qed.

(** A letter outside ASCII next to the word is part of the word, as it is for
    [re]: there is no boundary and the rule does not fire. *)
Example letter_next_to_the_word :
  warnings (validate_commands all_letters ["éreload"; "reloadé"; "reload"]
              CISCO_IOS)
  = ["WARNING: Перезагрузка оборудования (reload): reload"].
Proof. vm_compute. reflexivity. Qed.

(** ** Teardown *)

Lemma keeps_in_body_bind {A B} (m : M St A) (k : A -> M St B) :
  keeps_session_in_body m -> (forall a, keeps_session_in_body (k a)) ->
  keeps_session_in_body (bind m k).
Proof.
  intros Hm Hk s o s' H. rewrite bind_run in H.
  destruct (m s) as [[a|e] s1] eqn:E.
  - rewrite (Hk a _ _ _ H). exact (Hm _ _ _ E).
  - injection H as _ <-. exact (Hm _ _ _ E).
Qed.

Lemma keeps_in_body_lift {A} (m : M World A) :
  keeps_session m -> keeps_session_in_body (lift m).
Proof.
  intros Hm [w f] o s' H. rewrite lift_run in H. injection H as _ <-.
  cbn [fst]. apply (Hm w (fst (m w))). now destruct (m w).
Qed.

Lemma keeps_in_body_read {A} (g : St -> A) :
  keeps_session_in_body (fun s => (Return (g s), s)).
Proof. intros s o s' H. now injection H as _ <-. Qed.

Lemma keeps_in_body_ret {A} (a : A) : keeps_session_in_body (ret a).
Proof. intros s o s' H. now injection H as _ <-. Qed.

Lemma keeps_append_result (r : CommandResult) :
  keeps_session_in_body (append_result r).
Proof. intros s o s' H. now injection H as _ <-. Qed.

Lemma keeps_clear_all_success : keeps_session_in_body clear_all_success.
Proof. intros s o s' H. now injection H as _ <-. Qed.

Create HintDb session.
#[local] Hint Resolve keeps_in_body_ret keeps_append_result
  keeps_clear_all_success keeps_in_body_lift keeps_execute_command
  keeps_asyncio_sleep : session.

Lemma keeps_entry_loop (delay : N) (cmds : list string) :
  keeps_session_in_body (entry_loop delay cmds).
Proof.
  induction cmds as [|cmd rest IH]; cbn [entry_loop]; [auto with session|].
  apply keeps_in_body_bind; [auto with session|intros r].
  apply keeps_in_body_bind; [auto with session|intros _].
  destruct (negb (success r)); [auto with session|].
  apply keeps_in_body_bind; [auto with session|intros _]. exact IH.
Qed.

Lemma keeps_main_loop (delay : N) (cmds : list string) :
  keeps_session_in_body (main_loop delay cmds).
Proof.
  induction cmds as [|cmd rest IH]; cbn [main_loop]; [auto with session|].
  apply keeps_in_body_bind; [auto with session|intros r].
  apply keeps_in_body_bind; [auto with session|intros _].
  apply keeps_in_body_bind;
    [destruct (negb (success r)); auto with session|intros _].
  apply keeps_in_body_bind; [auto with session|intros _]. exact IH.
Qed.

Lemma keeps_exit_loop (delay : N) (cmds : list string) :
  keeps_session_in_body (exit_loop delay cmds).
Proof.
  induction cmds as [|cmd rest IH]; cbn [exit_loop]; [auto with session|].
  apply keeps_in_body_bind; [auto with session|intros r].
  apply keeps_in_body_bind; [auto with session|intros _].
  apply keeps_in_body_bind; [auto with session|intros _]. exact IH.
Qed.

Lemma keeps_execute_commands_body (commands : list string)
    (equipment_type : EquipmentType) (delay : N) :
  keeps_session_in_body (execute_commands_body commands equipment_type delay).
Proof.
  unfold execute_commands_body.
  apply keeps_in_body_bind; [apply keeps_entry_loop|intros _].
  apply keeps_in_body_bind; [apply keeps_in_body_read|intros entered].
  apply keeps_in_body_bind;
    [destruct entered; [apply keeps_main_loop|auto with session]|intros _].
  apply keeps_in_body_bind; [apply keeps_exit_loop|intros _].
  apply keeps_in_body_read.
Qed.

Lemma keeps_execute_commands (commands : list string)
    (equipment_type : EquipmentType) (delay : N) :
  keeps_session (execute_commands commands equipment_type delay).
Proof.
  intros w o w' H. unfold execute_commands in H.
  destruct (execute_commands_body _ _ _ _) as [r s'] eqn:Hbody.
  apply keeps_execute_commands_body in Hbody. cbn [fst] in Hbody.
  destruct r as [report|e].
  - now injection H as _ <-.
  - destruct (is_Exception e); now injection H as _ <-.
Qed.

(** A successful [connect] on a new client sets the three handles and makes
    no close call. *)
Lemma connect_establishes (password key_filename : option string)
    (w w1 : World) :
  connect password key_filename (set_self new_client w) = (Return true, w1) ->
  self w1 = live
  /\ stdin_close_calls (net w1) = stdin_close_calls (net w)
  /\ close_calls (net w1) = close_calls (net w)
  /\ wait_closed_calls (net w1) = wait_closed_calls (net w).
Proof.
  unfold connect, try_except. intros H.
  match type of H with
  | context [match ?body ?s with _ => _ end] =>
      destruct (body s) as [[b|e] w2] eqn:Hbody
  end.
  2:{ destruct (is_Exception e); discriminate. }
  injection H as -> ->.
  rewrite bind_run in Hbody.
  match type of Hbody with
  | context [match ?guard ?s with _ => _ end] =>
      destruct (guard s) as [[[]|e] w3] eqn:Hguard; [|discriminate]
  end.
  assert (w3 = set_self new_client w) as ->.
  { destruct password as [[|? ?]|]; destruct key_filename as [[|? ?]|];
      unfold ret, raise in Hguard; congruence. }
  clear Hguard.
  rewrite bind_run in Hbody. unfold asyncssh_connect in Hbody.
  cbn [net set_self self] in Hbody.
  destruct (dial (net w)); [discriminate|].
  rewrite bind_run in Hbody. unfold open_session in Hbody.
  cbn [net set_self self connection stdin stdout] in Hbody.
  destruct (shell (net w)); [discriminate|].
  rewrite bind_run in Hbody.
  match type of Hbody with
  | context [asyncio_sleep ?ms ?s] =>
      destruct (asyncio_sleep ms s) as [[[]|e] w4] eqn:Hsleep; [|discriminate]
  end.
  apply keeps_asyncio_sleep in Hsleep.
  rewrite bind_run in Hbody.
  destruct (_read_until_timeout 3000 w4) as [[banner|e] w5] eqn:Hread;
    [|discriminate].
  apply keeps_read_until_timeout in Hread.
  injection Hbody as <-.
  rewrite Hsleep in Hread. unfold session_view in Hread. cbn in Hread.
  injection Hread as -> -> -> ->. auto.
Qed.

(** [disconnect] is idempotent: run a second time it changes nothing. *)
Lemma disconnect_idempotent (w : World) :
  snd (disconnect (snd (disconnect w))) = snd (disconnect w).
Proof. reflexivity. Qed.

Lemma device_type_enum_of_total (device_type_str : string) (w : World) :
  exists e, device_type_enum_of device_type_str w = (Return e, w).
Proof.
  unfold device_type_enum_of, try_except, EquipmentType_call.
  repeat match goal with
         | |- context [String.eqb ?a ?b] =>
             destruct (String.eqb a b); [eexists; reflexivity|]
         end.
  eexists. reflexivity.
Qed.

(** C6: whenever [connect] has established the session, one call of
    [execute_commands_ssh] closes the write side once, closes the connection
    once and waits for it once, and leaves the client without handles,
    whether the call returns a text or raises.  A further [disconnect] would
    change nothing. *)
Theorem session_torn_down_exactly_once
    (commands : list string) (ip username password device_type_str : string)
    (w w1 w' : World) (o : outcome string) :
  connect (Some password) None (set_self new_client w) = (Return true, w1) ->
  execute_commands_ssh commands ip username password device_type_str w = (o, w') ->
  self w' = new_client
  /\ stdin_close_calls (net w') = stdin_close_calls (net w) + 1
  /\ close_calls (net w') = close_calls (net w) + 1
  /\ wait_closed_calls (net w') = wait_closed_calls (net w) + 1
  /\ snd (disconnect w') = w'
  /\ (forall w0, snd (disconnect (snd (disconnect w0))) = snd (disconnect w0)).
Proof.
  intros Hconnect Hrun.
  destruct (connect_establishes _ _ _ _ Hconnect) as (Hself & Hc1 & Hc2 & Hc3).
  unfold execute_commands_ssh in Hrun. rewrite bind_run in Hrun.
  destruct (device_type_enum_of_total device_type_str w) as [e He].
  rewrite He in Hrun. rewrite bind_run in Hrun. cbn beta iota in Hrun.
  rewrite bind_run, Hconnect in Hrun. unfold try_finally in Hrun.
  match type of Hrun with
  | context [match ?body w1 with _ => _ end] =>
      assert (Hkeep : keeps_session body)
        by (apply keeps_bind; [apply keeps_execute_commands|intros r; apply keeps_ret]);
      destruct (body w1) as [r wb] eqn:Hbody
  end.
  apply Hkeep in Hbody. unfold session_view in Hbody.
  injection Hbody as Hs Hb1 Hb2 Hb3.
  assert (Hend : w' = snd (disconnect wb)).
  { destruct r as [text|ex]; cbn in Hrun; now injection Hrun as _ <-. }
  rewrite Hend. unfold disconnect. cbn [snd self net].
  rewrite Hs, Hself. unfold live, new_client.
  cbn [stdin connection self net stdin_close_calls close_calls
       wait_closed_calls count_closes].
  rewrite Hb1, Hb2, Hb3, Hc1, Hc2, Hc3.
  conj_split; auto; lia.
Qed.

Lemma session_torn_down_exactly_once_witness :
  exists o w',
    connect (Some "secret") None (set_self new_client (not_yet_connected obliging))
    = (Return true,
       snd (connect (Some "secret") None
              (set_self new_client (not_yet_connected obliging))))
    /\ execute_commands_ssh ["hostname R1"] "192.0.2.1" "admin" "secret"
         "cisco_ios" (not_yet_connected obliging) = (o, w')
    /\ self w' = new_client
    /\ stdin_close_calls (net w') = 0 + 1
    /\ close_calls (net w') = 0 + 1
    /\ wait_closed_calls (net w') = 0 + 1
    /\ snd (disconnect w') = w'
    /\ (forall w0, snd (disconnect (snd (disconnect w0))) = snd (disconnect w0)).
Proof.
  eexists. eexists.
  split; [vm_compute; reflexivity|]. split; [lazy; reflexivity|].
  eapply (session_torn_down_exactly_once
            ["hostname R1"] "192.0.2.1" "admin" "secret" "cisco_ios"
            (not_yet_connected obliging)).
  - vm_compute. reflexivity.
  - lazy. reflexivity.
Defined.

(** The same when the task is cancelled in the middle of the entry phase:
    the call raises, and the session has been closed once all the same. *)
Example teardown_after_cancellation :
  let w := {| self := new_client;
              net := lab obliging [None; None; Some CancelledError] |} in
  let run := execute_commands_ssh ["hostname R1"] "192.0.2.1" "admin" "secret"
               "cisco_ios" w in
  fst run = Raise CancelledError
  /\ written (net (snd run)) = ["enable" ++ CRLF]
  /\ self (snd run) = new_client
  /\ (stdin_close_calls (net (snd run)), close_calls (net (snd run)),
      wait_closed_calls (net (snd run))) = (1, 1, 1).
Proof. vm_compute. repeat split. Qed.

(** * Further properties of the driver *)

Lemma string_app_nil_r (s : string) : s ++ "" = s.
Proof. induction s as [|c s IH]; [reflexivity|]. cbn. now rewrite IH. Qed.

Lemma string_app_assoc (a b c : string) : (a ++ b) ++ c = a ++ (b ++ c).
Proof. induction a as [|x a IH]; [reflexivity|]. cbn. now rewrite IH. Qed.

Lemma chunk_data_app (xs ys : list ReadEvent) :
  chunk_data (xs ++ ys) = chunk_data xs ++ chunk_data ys.
Proof.
  induction xs as [|[elapsed data| |e] xs IH]; cbn; [reflexivity| |assumption|assumption].
  now rewrite IH, string_app_assoc.
Qed.

(** One run of the read loop that starts with a buffer free of prompt
    characters: it reads an initial segment of the queue and leaves the rest;
    the buffer grows by the text of the chunks read; if it ends with a prompt
    character in the buffer, the chunk that brought it is the last event
    read; if it ends by an exception, the event that raised it is. *)
Lemma read_loop_run (fuel : nat) :
  forall start_time timeout out w o e w',
    read_loop fuel start_time timeout out w = ((o, e), w') ->
    has_prompt out = false ->
    exists consumed,
      inbox (net w) = (consumed ++ inbox (net w'))%list
      /\ o = out ++ chunk_data consumed
      /\ (has_prompt o = true ->
          exists before elapsed data,
            consumed = (before ++ [Chunk elapsed data])%list
            /\ has_prompt (out ++ chunk_data before) = false)
      /\ (forall x, e = Some x ->
          exists before, consumed = (before ++ [Broken x])%list).
Proof.
  induction fuel as [|fuel IH]; intros start_time timeout out w o e w' H Hout.
  - injection H as <- <- <-. exists []. cbn. rewrite string_app_nil_r.
    conj_split; auto; [congruence | discriminate].
  - rewrite read_loop_unfold in H.
    destruct (clock (net w) - start_time <? timeout)%N.
    2:{ injection H as <- <- <-. exists []. cbn. rewrite string_app_nil_r.
        conj_split; auto; [congruence | discriminate]. }
    unfold stdout_read in H.
    destruct (inbox (net w)) as [|[elapsed data| |x] rest] eqn:Hin.
    + (* nothing queued: the read times out *)
      cbn [is_TimeoutError] in H. rewrite Hout in H.
      apply IH in H; [|assumption].
      cbn [net set_net inbox advance] in H. rewrite Hin in H. exact H.
    + destruct (truthy data) eqn:Hdata.
      * destruct (has_prompt (out ++ data)) eqn:Hprompt.
        -- injection H as <- <- <-. cbn [net set_net inbox advance set_inbox].
           exists [Chunk elapsed data]. cbn. rewrite string_app_nil_r.
           conj_split; auto; [|discriminate].
           intros _. exists [], elapsed, data. cbn. rewrite string_app_nil_r. auto.
        -- apply IH in H; [|assumption].
           cbn [net set_net inbox advance set_inbox] in H.
           destruct H as (consumed & Hq & -> & Hlast & Hexn).
           exists (Chunk elapsed data :: consumed). cbn.
           rewrite Hq. conj_split; auto using string_app_assoc.
           ++ intros Hp.
              destruct (Hlast Hp) as (before & el & d & -> & Hbefore).
              exists (Chunk elapsed data :: before), el, d. cbn.
              rewrite <- string_app_assoc. auto.
           ++ intros x Hx. destruct (Hexn x Hx) as (before & ->).
              now exists (Chunk elapsed data :: before).
      * destruct data; [|discriminate].
        apply IH in H; [|assumption].
        cbn [net set_net inbox advance set_inbox] in H.
        destruct H as (consumed & Hq & -> & Hlast & Hexn).
        exists (Chunk elapsed "" :: consumed). cbn.
        rewrite Hq. conj_split; auto.
        -- intros Hp. destruct (Hlast Hp) as (before & el & d & -> & Hbefore).
           exists (Chunk elapsed "" :: before), el, d. cbn. auto.
        -- intros x Hx. destruct (Hexn x Hx) as (before & ->).
           now exists (Chunk elapsed "" :: before).
    + cbn [is_TimeoutError] in H. rewrite Hout in H.
      apply IH in H; [|assumption].
      cbn [net set_net inbox advance set_inbox] in H.
      destruct H as (consumed & Hq & -> & Hlast & Hexn).
      exists (Silence :: consumed). cbn. rewrite Hq. conj_split; auto.
      * intros Hp. destruct (Hlast Hp) as (before & el & d & -> & Hbefore).
        exists (Silence :: before), el, d. cbn. auto.
      * intros y Hy. destruct (Hexn y Hy) as (before & ->).
        now exists (Silence :: before).
    + destruct (is_TimeoutError x) eqn:Hx.
      * rewrite Hout in H. apply IH in H; [|assumption].
        cbn [net set_net inbox advance set_inbox] in H.
        destruct H as (consumed & Hq & -> & Hlast & Hexn).
        exists (Broken x :: consumed). cbn. rewrite Hq. conj_split; auto.
        -- intros Hp. destruct (Hlast Hp) as (before & el & d & -> & Hbefore).
           exists (Broken x :: before), el, d. cbn. auto.
        -- intros y Hy. destruct (Hexn y Hy) as (before & ->).
           now exists (Broken x :: before).
      * injection H as <- <- <-. cbn [net set_net inbox advance set_inbox].
        exists [Broken x]. cbn. rewrite string_app_nil_r.
        conj_split; auto; [congruence|].
        intros y [= <-]. now exists [].
Qed.

(** X1: what [_read_until_timeout] returns is the text of the chunks it
    read, in order; it reads an initial segment of what was queued and leaves
    the rest queued. *)
Theorem read_until_timeout_returns_what_it_read
    (timeout : N) (w w' : World) (o : string) :
  _read_until_timeout timeout w = (Return o, w') ->
  exists consumed,
    inbox (net w) = (consumed ++ inbox (net w'))%list
    /\ o = chunk_data consumed.
Proof.
  unfold _read_until_timeout. intros H.
  destruct (negb (stdout (self w))).
  { injection H as <- <-. now exists []. }
  destruct (read_loop _ _ _ _ w) as [[out e] w1] eqn:Hloop.
  apply read_loop_run in Hloop; [|reflexivity].
  destruct Hloop as (consumed & Hq & Ho & _).
  assert (w' = w1 /\ o = out) as [-> ->].
  { destruct e as [x|]; [destruct (is_Exception x)|]; inversion H; auto. }
  now exists consumed.
Qed.

Lemma read_until_timeout_returns_what_it_read_witness :
  _read_until_timeout 5000
    (queued [Chunk 10 "Building configuration"; Silence; Chunk 20 "R1#";
             Chunk 5 "late"])
  = (Return "Building configurationR1#",
     snd (_read_until_timeout 5000
            (queued [Chunk 10 "Building configuration"; Silence;
                     Chunk 20 "R1#"; Chunk 5 "late"])))
  /\ exists consumed,
       [Chunk 10 "Building configuration"; Silence; Chunk 20 "R1#";
        Chunk 5 "late"]
       = (consumed
          ++ inbox (net (snd (_read_until_timeout 5000
                                (queued [Chunk 10 "Building configuration";
                                         Silence; Chunk 20 "R1#";
                                         Chunk 5 "late"])))))%list
       /\ "Building configurationR1#" = chunk_data consumed.
Proof.
  split.
  - vm_compute. reflexivity.
  - apply (read_until_timeout_returns_what_it_read 5000
             (queued [Chunk 10 "Building configuration"; Silence;
                      Chunk 20 "R1#"; Chunk 5 "late"])).
    vm_compute. reflexivity.
Defined.

(** X2: reading stops with the chunk that brings the first prompt character
    into the buffer: when the returned text contains one of [#], [>], [$],
    [:], the last event read is a chunk, the text read before it contains
    none of them, and everything queued behind it is left unread. *)
Theorem read_until_timeout_stops_at_first_prompt
    (timeout : N) (w w' : World) (o : string) :
  _read_until_timeout timeout w = (Return o, w') ->
  has_prompt o = true ->
  exists before elapsed data,
    inbox (net w) = (before ++ Chunk elapsed data :: inbox (net w'))%list
    /\ o = chunk_data before ++ data
    /\ has_prompt (chunk_data before) = false.
Proof.
  unfold _read_until_timeout. intros H Hprompt.
  destruct (negb (stdout (self w))).
  { injection H as <- <-. discriminate. }
  destruct (read_loop _ _ _ _ w) as [[out e] w1] eqn:Hloop.
  apply read_loop_run in Hloop; [|reflexivity].
  destruct Hloop as (consumed & Hq & Ho & Hlast & _).
  assert (w' = w1 /\ o = out) as [-> ->].
  { destruct e as [x|]; [destruct (is_Exception x)|]; inversion H; auto. }
  destruct (Hlast Hprompt) as (before & elapsed & data & -> & Hbefore).
  exists before, elapsed, data. cbn in Ho, Hbefore.
  rewrite <- app_assoc in Hq. cbn in Hq.
  rewrite chunk_data_app in Ho. cbn in Ho. rewrite string_app_nil_r in Ho.
  auto.
Qed.

Lemma read_until_timeout_stops_at_first_prompt_witness :
  _read_until_timeout 5000
    (queued [Chunk 10 "Building configuration"; Silence; Chunk 20 "R1#";
             Chunk 5 "late"])
  = (Return "Building configurationR1#",
     queued_after 530 [Chunk 5 "late"])
  /\ has_prompt "Building configurationR1#" = true
  /\ exists before elapsed data,
       [Chunk 10 "Building configuration"; Silence; Chunk 20 "R1#";
        Chunk 5 "late"]
       = (before ++ Chunk elapsed data :: [Chunk 5 "late"])%list
       /\ "Building configurationR1#" = chunk_data before ++ data
       /\ has_prompt (chunk_data before) = false.
Proof.
  split; [vm_compute; reflexivity|]. split; [reflexivity|].
  apply (read_until_timeout_stops_at_first_prompt 5000
           (queued [Chunk 10 "Building configuration"; Silence;
                    Chunk 20 "R1#"; Chunk 5 "late"])
           (queued_after 530 [Chunk 5 "late"])).
  - vm_compute. reflexivity.
  - reflexivity.
Defined.

(** X3: [_read_until_timeout] lets no exception of class [Exception] out: a
    transport failure ends the reading and the text read so far is returned.
    What it does raise was raised by a read and is outside that class. *)
Theorem read_until_timeout_raises_no_Exception
    (timeout : N) (w w' : World) (e : exn) :
  _read_until_timeout timeout w = (Raise e, w') ->
  is_Exception e = false /\ In (Broken e) (inbox (net w)).
Proof.
  unfold _read_until_timeout. intros H.
  destruct (negb (stdout (self w))); [discriminate|].
  destruct (read_loop _ _ _ _ w) as [[out [x|]] w1] eqn:Hloop; [|discriminate].
  destruct (is_Exception x) eqn:Hx; [discriminate|].
  injection H as <- <-. split; [assumption|].
  apply read_loop_run in Hloop; [|reflexivity].
  destruct Hloop as (consumed & Hq & _ & _ & Hexn).
  destruct (Hexn x eq_refl) as (before & ->).
  rewrite Hq. apply in_or_app. left. apply in_or_app. right. now left.
Qed.

Lemma read_until_timeout_raises_no_Exception_witness :
  _read_until_timeout 5000
    (queued [Chunk 10 "Building"; Broken CancelledError; Chunk 5 "R1#"])
  = (Raise CancelledError, queued_after 10 [Chunk 5 "R1#"])
  /\ is_Exception CancelledError = false
  /\ In (Broken CancelledError)
        [Chunk 10 "Building"; Broken CancelledError; Chunk 5 "R1#"].
Proof.
  split; [vm_compute; reflexivity|].
  apply (read_until_timeout_raises_no_Exception 5000
           (queued [Chunk 10 "Building"; Broken CancelledError; Chunk 5 "R1#"])
           (queued_after 10 [Chunk 5 "R1#"])).
  vm_compute. reflexivity.
Defined.

Example transport_failure_while_reading :
  fst (_read_until_timeout 5000
         (queued [Chunk 10 "Building"; Broken (Exception "Connection lost");
                  Chunk 5 "R1#"]))
  = Return "Building".
Proof. vm_compute. reflexivity. Qed.

Lemma read_loop_clock (fuel : nat) :
  forall start_time timeout out w r w',
    Forall timely (inbox (net w)) ->
    (start_time <= clock (net w))%N ->
    (clock (net w) < start_time + timeout + 500)%N ->
    read_loop fuel start_time timeout out w = (r, w') ->
    (clock (net w) <= clock (net w'))%N
    /\ (clock (net w') < start_time + timeout + 500)%N.
Proof.
  induction fuel as [|fuel IH];
    intros start_time timeout out w r w' Hq Hstart Hbound H.
  - injection H as _ <-. lia.
  - rewrite read_loop_unfold in H.
    destruct (clock (net w) - start_time <? timeout)%N eqn:Hcond.
    2:{ injection H as _ <-. lia. }
    apply N.ltb_lt in Hcond.
    assert (Hnext : forall w1 o,
               stdout_read w = (o, w1) ->
               Forall timely (inbox (net w1))
               /\ (clock (net w) <= clock (net w1))%N
               /\ (clock (net w1) < start_time + timeout + 500)%N).
    { intros w1 o Hread. unfold stdout_read in Hread.
      destruct (inbox (net w)) as [|[elapsed data| |x] rest] eqn:Hin;
        injection Hread as _ <-; cbn; rewrite ?Hin;
        try (inversion Hq as [|? ? Hhead Hrest]; subst; cbn in Hhead);
        conj_split; auto; lia. }
    destruct (stdout_read w) as [[chunk|x] w1] eqn:Hread;
      destruct (Hnext _ _ eq_refl) as (Hq1 & Hle & Hlt).
    + destruct (truthy chunk); [destruct (has_prompt (out ++ chunk))|].
      * injection H as _ <-. lia.
      * apply IH in H; auto; lia.
      * apply IH in H; auto; lia.
    + destruct (is_TimeoutError x); [destruct (has_prompt out)|].
      * injection H as _ <-. lia.
      * apply IH in H; auto; lia.
      * injection H as _ <-. lia.
Qed.

(** X4: when every queued chunk arrives within the half second that
    [wait_for] allows a read, [_read_until_timeout] takes less than its
    window plus one read: the clock never goes back and moves by less than
    [timeout + 0.5] seconds, whatever the outcome. *)
Theorem read_until_timeout_is_bounded
    (timeout : N) (w w' : World) (o : outcome string) :
  Forall timely (inbox (net w)) ->
  _read_until_timeout timeout w = (o, w') ->
  (clock (net w) <= clock (net w'))%N
  /\ (clock (net w') < clock (net w) + timeout + 500)%N.
Proof.
  unfold _read_until_timeout. intros Hq H.
  destruct (negb (stdout (self w))).
  { injection H as _ <-. lia. }
  destruct (read_loop _ _ _ _ w) as [r w1] eqn:Hloop.
  apply read_loop_clock in Hloop; [|assumption|lia|lia].
  assert (w' = w1) as ->.
  { destruct r as [out [x|]]; [destruct (is_Exception x)|]; now injection H as _ <-. }
  exact Hloop.
Qed.

Lemma read_until_timeout_is_bounded_witness :
  Forall timely [Chunk 10 "Building configuration"; Chunk 499 "..."]
  /\ (clock (net (queued [Chunk 10 "Building configuration"; Chunk 499 "..."]))
      <= clock (net (snd (_read_until_timeout 3000
                            (queued [Chunk 10 "Building configuration";
                                     Chunk 499 "..."])))))%N
  /\ (clock (net (snd (_read_until_timeout 3000
                         (queued [Chunk 10 "Building configuration";
                                  Chunk 499 "..."]))))
      < clock (net (queued [Chunk 10 "Building configuration"; Chunk 499 "..."]))
        + 3000 + 500)%N.
Proof.
  assert (Hq : Forall timely [Chunk 10 "Building configuration"; Chunk 499 "..."]).
  { repeat constructor; cbn; lia. }
  split; [exact Hq|].
  apply (read_until_timeout_is_bounded 3000
           (queued [Chunk 10 "Building configuration"; Chunk 499 "..."])
           _ (fst (_read_until_timeout 3000
                     (queued [Chunk 10 "Building configuration"; Chunk 499 "..."])))).
  - exact Hq.
  - apply surjective_pairing.
Defined.

(** ** Views of the world that reading leaves alone *)

Lemma preserves_ret {A V} (view : World -> V) (a : A) : preserves view (ret a).
Proof. intros w o w' H. now injection H as _ <-. Qed.

Lemma preserves_bind {A B V} (view : World -> V) (m : M World A)
    (k : A -> M World B) :
  preserves view m -> (forall a, preserves view (k a)) ->
  preserves view (bind m k).
Proof.
  intros Hm Hk w o w' H. rewrite bind_run in H.
  destruct (m w) as [[a|e] w1] eqn:E.
  - rewrite (Hk a _ _ _ H). exact (Hm _ _ _ E).
  - injection H as _ <-. exact (Hm _ _ _ E).
Qed.

Lemma preserves_try_except {A V} (view : World -> V) (m : M World A)
    (class : exn -> bool) (handler : exn -> M World A) :
  preserves view m -> (forall e, preserves view (handler e)) ->
  preserves view (try_except m class handler).
Proof.
  intros Hm Hh w o w' H. unfold try_except in H.
  destruct (m w) as [[a|e] w1] eqn:E.
  - injection H as _ <-. exact (Hm _ _ _ E).
  - destruct (class e).
    + rewrite (Hh e _ _ _ H). exact (Hm _ _ _ E).
    + injection H as _ <-. exact (Hm _ _ _ E).
Qed.

Lemma read_loop_preserves {V} (view : World -> V) :
  preserves view stdout_read ->
  forall fuel start_time timeout out w r w',
    read_loop fuel start_time timeout out w = (r, w') -> view w' = view w.
Proof.
  intros Hread fuel.
  induction fuel as [|fuel IH]; intros start_time timeout out w r w' H.
  - now injection H as _ <-.
  - rewrite read_loop_unfold in H.
    destruct (clock (net w) - start_time <? timeout)%N; [|now injection H as _ <-].
    destruct (stdout_read w) as [[chunk|e] w1] eqn:E;
      rewrite <- (Hread _ _ _ E).
    + destruct (truthy chunk); [destruct (has_prompt (out ++ chunk))|].
      * now injection H as _ <-.
      * exact (IH _ _ _ _ _ _ H).
      * exact (IH _ _ _ _ _ _ H).
    + destruct (is_TimeoutError e); [destruct (has_prompt out)|].
      * now injection H as _ <-.
      * exact (IH _ _ _ _ _ _ H).
      * now injection H as _ <-.
Qed.

Lemma read_until_timeout_preserves {V} (view : World -> V) (timeout : N) :
  preserves view stdout_read -> preserves view (_read_until_timeout timeout).
Proof.
  intros Hread w o w' H. unfold _read_until_timeout in H.
  destruct (negb (stdout (self w))); [now injection H as _ <-|].
  destruct (read_loop _ _ _ _ w) as [[out [e|]] w1] eqn:Hloop;
    pose proof (read_loop_preserves view Hread _ _ _ _ _ _ _ Hloop) as Hview.
  - destruct (is_Exception e); now injection H as _ <-.
  - now injection H as _ <-.
Qed.

Lemma stdout_read_beyond : preserves beyond_reading stdout_read.
Proof.
  intros w o w' H. unfold stdout_read in H.
  destruct (inbox (net w)) as [|[elapsed data| |e] rest]; now injection H as _ <-.
Qed.

Lemma read_until_timeout_beyond (timeout : N) :
  preserves beyond_reading (_read_until_timeout timeout).
Proof. apply read_until_timeout_preserves, stdout_read_beyond. Qed.

Lemma asyncio_sleep_wire (ms : N) : preserves wire_log (asyncio_sleep ms).
Proof.
  intros w o w' H. unfold asyncio_sleep in H.
  destruct (sleeps (net w)) as [|[e|] rest]; now injection H as _ <-.
Qed.

Lemma stdin_drain_wire : preserves wire_log stdin_drain.
Proof.
  intros w o w' H. unfold stdin_drain in H.
  destruct (drains (net w)) as [|[e|] rest]; now injection H as _ <-.
Qed.

Lemma read_until_timeout_wire (timeout : N) :
  preserves wire_log (_read_until_timeout timeout).
Proof.
  intros w o w' H. apply read_until_timeout_beyond in H.
  unfold beyond_reading in H. unfold wire_log. congruence.
Qed.

(** X5: a [send_command] that returns has written exactly one thing, the
    command followed by carriage return and line feed. *)
Theorem send_command_writes_one_line
    (cmd : string) (timeout : N) (w w' : World) (o : string) :
  send_command cmd timeout w = (Return o, w') ->
  written (net w')
  = (written (net w) ++ [(cmd ++ String CR (String LF ""))%string])%list.
Proof.
  unfold send_command. intros H.
  destruct (negb (stdin (self w)) || negb (stdout (self w))); [discriminate|].
  rewrite bind_run in H.
  destruct (asyncio_sleep 500 w) as [[[]|e] w1] eqn:Hsleep; [|discriminate].
  apply asyncio_sleep_wire in Hsleep.
  rewrite bind_run in H. unfold stdin_write at 1 in H.
  rewrite bind_run in H.
  match type of H with
  | context [stdin_drain ?s] =>
      destruct (stdin_drain s) as [[[]|e] w2] eqn:Hdrain; [|discriminate]
  end.
  apply stdin_drain_wire in Hdrain.
  rewrite bind_run in H.
  destruct (_read_until_timeout timeout w2) as [[out|e] w3] eqn:Hread;
    [|discriminate].
  apply read_until_timeout_wire in Hread.
  injection H as _ <-.
  unfold wire_log in *. cbn in Hdrain.
  injection Hsleep as Hs _ _ _. injection Hdrain as Hd _ _ _.
  injection Hread as Hr _ _ _.
  now rewrite Hr, Hd, Hs.
Qed.

Lemma send_command_writes_one_line_witness :
  send_command "hostname R1" default_timeout (connected_to obliging [])
  = (Return "Router(config)#",
     snd (send_command "hostname R1" default_timeout (connected_to obliging [])))
  /\ written (net (snd (send_command "hostname R1" default_timeout
                          (connected_to obliging []))))
     = (written (net (connected_to obliging []))
        ++ [("hostname R1" ++ String CR (String LF ""))%string])%list.
Proof.
  split; [vm_compute; reflexivity|].
  apply (send_command_writes_one_line "hostname R1" default_timeout
           (connected_to obliging []) _ "Router(config)#").
  vm_compute. reflexivity.
Defined.

(** X6: on a client without its input or output handle, [execute_command]
    touches nothing and returns a failure whose reason is the message of the
    exception [send_command] raised. *)
Theorem execute_command_without_connection
    (cmd : string) (timeout : N) (w : World) :
  stdin (self w) = false \/ stdout (self w) = false ->
  execute_command cmd timeout w
  = (Return {| success := false; command := cmd; output := "";
               error := Some "Нет активного подключения" |}, w).
Proof.
  intros H. unfold execute_command, send_command.
  assert (negb (stdin (self w)) || negb (stdout (self w)) = true) as ->.
  { destruct H as [-> | ->]; [reflexivity | apply orb_true_r]. }
  reflexivity.
Qed.

Lemma execute_command_without_connection_witness :
  (stdin (self (not_yet_connected obliging)) = false
   \/ stdout (self (not_yet_connected obliging)) = false)
  /\ execute_command "show version" default_timeout (not_yet_connected obliging)
     = (Return {| success := false; command := "show version"; output := "";
                  error := Some "Нет активного подключения" |},
        not_yet_connected obliging).
Proof.
  split; [left; reflexivity|].
  apply (execute_command_without_connection "show version" default_timeout
           (not_yet_connected obliging)).
  left. reflexivity.
Defined.

(** X7: whatever [execute_command] returns names the command it was given
    and carries a failure reason exactly when it is not a success; a failure
    either is a rejection by keyword or has an empty output.  What it raises
    is never of class [Exception]. *)
Theorem execute_command_outcome
    (cmd : string) (timeout : N) (w w' : World) (o : outcome CommandResult) :
  execute_command cmd timeout w = (o, w') ->
  match o with
  | Return r =>
      command r = cmd
      /\ (success r = true <-> error r = None)
      /\ (success r = false ->
          error r = Some rejection_reason \/ output r = "")
  | Raise e => is_Exception e = false
  end.
Proof.
  unfold execute_command.
  destruct (send_command cmd timeout w) as [[out|e] w1].
  - intros H. injection H as <- _. cbn [command success error output].
    destruct (negb _); conj_split; auto; try (split; congruence); congruence.
  - destruct (is_TimeoutError e).
    { intros H. injection H as <- _. cbn [command success error output].
      conj_split; auto; split; congruence. }
    destruct (is_Exception e) eqn:He; intros H; injection H as <- _.
    + cbn [command success error output]. conj_split; auto; split; congruence.
    + exact He.
Qed.

Lemma execute_command_outcome_witness :
  execute_command "hostname R1" default_timeout (connected_to rejecting [])
  = (Return {| success := false; command := "hostname R1";
               output := "% Invalid input detected";
               error := Some rejection_reason |},
     snd (execute_command "hostname R1" default_timeout (connected_to rejecting [])))
  /\ "hostname R1" = "hostname R1"
  /\ (false = true <-> Some rejection_reason = None)
  /\ (false = false ->
      Some rejection_reason = Some rejection_reason
      \/ "% Invalid input detected" = "").
Proof.
  split; [vm_compute; reflexivity|].
  eapply (execute_command_outcome "hostname R1" default_timeout
           (connected_to rejecting []) _
           (Return {| success := false; command := "hostname R1";
                      output := "% Invalid input detected";
                      error := Some rejection_reason |})).
  vm_compute. reflexivity.
Defined.

(** X8: without a non-empty password and without a non-empty key file name,
    [connect] returns [False] before it dials: the world is untouched. *)
Theorem connect_needs_a_credential
    (password key_filename : option string) (w : World) :
  password = None \/ password = Some "" ->
  key_filename = None \/ key_filename = Some "" ->
  connect password key_filename w = (Return false, w).
Proof.
  intros [-> | ->] [-> | ->]; reflexivity.
Qed.

Lemma connect_needs_a_credential_witness :
  (Some "" = None \/ Some "" = Some "")
  /\ (@None string = None \/ @None string = Some "")
  /\ connect (Some "") None (not_yet_connected obliging)
     = (Return false, not_yet_connected obliging).
Proof.
  split; [right; reflexivity|]. split; [left; reflexivity|].
  apply (connect_needs_a_credential (Some "") None (not_yet_connected obliging)).
  - right. reflexivity.
  - left. reflexivity.
Defined.

Lemma connect_wire (password key_filename : option string) :
  preserves wire_log (connect password key_filename).
Proof.
  unfold connect.
  apply preserves_try_except; [|intros e; apply preserves_ret].
  apply preserves_bind.
  { destruct password as [[|? ?]|]; destruct key_filename as [[|? ?]|];
      intros w o w' H; now injection H as _ <-. }
  intros _. apply preserves_bind.
  { intros w o w' H. unfold asyncssh_connect in H.
    destruct (dial (net w)); now injection H as _ <-. }
  intros _. apply preserves_bind.
  { intros w o w' H. unfold open_session in H.
    destruct (shell (net w)); now injection H as _ <-. }
  intros _. apply preserves_bind; [apply asyncio_sleep_wire|].
  intros _. apply preserves_bind; [apply read_until_timeout_wire|].
  intros banner. apply preserves_ret.
Qed.

(** X9: when [connect] returns [False], [execute_commands_ssh] raises the
    connection error that names the address and the user; nothing has been
    written to the device and no close call has been made. *)
Theorem connection_failure_is_raised
    (commands : list string) (ip username password device_type_str : string)
    (w w1 : World) :
  connect (Some password) None (set_self new_client w) = (Return false, w1) ->
  execute_commands_ssh commands ip username password device_type_str w
  = (Raise (Exception ("Не удалось подключиться к устройству " ++ ip
                       ++ " под пользователем " ++ username ++ ".")), w1)
  /\ written (net w1) = written (net w)
  /\ stdin_close_calls (net w1) = stdin_close_calls (net w)
  /\ close_calls (net w1) = close_calls (net w)
  /\ wait_closed_calls (net w1) = wait_closed_calls (net w).
Proof.
  intros Hconnect.
  pose proof (connect_wire _ _ _ _ _ Hconnect) as Hwire.
  unfold wire_log in Hwire. cbn in Hwire. injection Hwire as H1 H2 H3 H4.
  split; [|auto].
  unfold execute_commands_ssh. rewrite bind_run.
  destruct (device_type_enum_of_total device_type_str w) as [e ->].
  rewrite bind_run. cbn beta iota. rewrite bind_run, Hconnect. reflexivity.
Qed.

Lemma connection_failure_is_raised_witness :
  connect (Some "secret") None
    (set_self new_client {| self := new_client; net := refusing |})
  = (Return false, {| self := new_client; net := refusing |})
  /\ execute_commands_ssh ["hostname R1"] "192.0.2.1" "admin" "secret" "cisco_ios"
       {| self := new_client; net := refusing |}
     = (Raise (Exception ("Не удалось подключиться к устройству " ++ "192.0.2.1"
                          ++ " под пользователем " ++ "admin" ++ ".")),
        {| self := new_client; net := refusing |})
  /\ written (net {| self := new_client; net := refusing |}) = []
  /\ stdin_close_calls (net {| self := new_client; net := refusing |}) = 0
  /\ close_calls (net {| self := new_client; net := refusing |}) = 0
  /\ wait_closed_calls (net {| self := new_client; net := refusing |}) = 0.
Proof.
  split; [vm_compute; reflexivity|].
  apply (connection_failure_is_raised ["hostname R1"] "192.0.2.1" "admin"
           "secret" "cisco_ios" {| self := new_client; net := refusing |}).
  vm_compute. reflexivity.
Defined.

(** X10: when the connection is made but [open_session] raises, [connect]
    has already stored the connection; [execute_commands_ssh] then raises the
    connection error and returns with the connection handle still set and
    the transport untouched: no close call is made for it. *)
Theorem failed_session_leaves_connection_open
    (commands : list string) (ip username device_type_str : string)
    (c : ascii) (password : string) (w : World) (e : exn) :
  dial (net w) = None ->
  shell (net w) = Some e ->
  is_Exception e = true ->
  execute_commands_ssh commands ip username (String c password)
    device_type_str w
  = (Raise (Exception ("Не удалось подключиться к устройству " ++ ip
                       ++ " под пользователем " ++ username ++ ".")),
     {| self := {| connection := true; stdin := false; stdout := false |};
        net := net w |}).
Proof.
  intros Hdial Hshell He.
  unfold execute_commands_ssh. rewrite bind_run.
  destruct (device_type_enum_of_total device_type_str w) as [t ->].
  rewrite bind_run. cbn beta iota. rewrite bind_run.
  unfold connect, try_except, bind, ret, asyncssh_connect, open_session.
  cbn [net set_self self connection stdin stdout new_client].
  rewrite Hdial. cbn [net set_self self connection stdin stdout].
  rewrite Hshell, He. reflexivity.
Qed.

Lemma failed_session_leaves_connection_open_witness :
  dial (net {| self := new_client; net := without_shell |}) = None
  /\ shell (net {| self := new_client; net := without_shell |})
     = Some (Exception "Channel open failure")
  /\ is_Exception (Exception "Channel open failure") = true
  /\ execute_commands_ssh ["hostname R1"] "192.0.2.1" "admin" "secret"
       "cisco_ios" {| self := new_client; net := without_shell |}
     = (Raise (Exception ("Не удалось подключиться к устройству " ++ "192.0.2.1"
                          ++ " под пользователем " ++ "admin" ++ ".")),
        {| self := {| connection := true; stdin := false; stdout := false |};
           net := net {| self := new_client; net := without_shell |} |}).
Proof.
  split; [reflexivity|]. split; [reflexivity|]. split; [reflexivity|].
  apply (failed_session_leaves_connection_open ["hostname R1"] "192.0.2.1"
           "admin" "cisco_ios" "s" "ecret"
           {| self := new_client; net := without_shell |}
           (Exception "Channel open failure")); reflexivity.
Defined.

(** ** Batches without faults *)

Lemma asyncio_sleep_calm (ms : N) (w : World) :
  calm w ->
  asyncio_sleep ms w = (Return tt, set_net (advance ms (net w)) w)
  /\ calm (set_net (advance ms (net w)) w).
Proof.
  intros (Hin & Hout & Hsleeps & Hdrains). unfold asyncio_sleep.
  rewrite Hsleeps. split; [reflexivity|]. now repeat split.
Qed.

Lemma execute_command_calm (cmd : string) (timeout : N) (w w' : World)
    (o : outcome CommandResult) :
  calm w ->
  execute_command cmd timeout w = (o, w') ->
  calm w'
  /\ written (net w') = (written (net w) ++ [line cmd])%list
  /\ match o with
     | Return r => command r = cmd
     | Raise e => is_Exception e = false
     end.
Proof.
  intros Hcalm H.
  assert (Hlast : match o with
                  | Return r => command r = cmd
                  | Raise e => is_Exception e = false
                  end).
  { destruct o as [r|e].
    - exact (execute_command_command _ _ _ _ _ H).
    - exact (execute_command_raises _ _ _ _ _ H). }
  assert (Hworld : exists w2,
             calm w2
             /\ written (net w2) = (written (net w) ++ [line cmd])%list
             /\ beyond_reading w' = beyond_reading w2).
  { destruct Hcalm as (Hin & Hout & Hsleeps & Hdrains).
    unfold execute_command, send_command in H. rewrite Hin, Hout in H.
    cbn [negb orb] in H.
    rewrite bind_run in H. unfold asyncio_sleep at 1 in H. rewrite Hsleeps in H.
    rewrite bind_run in H. unfold stdin_write at 1 in H.
    rewrite bind_run in H. unfold stdin_drain at 1 in H.
    cbn [net set_net drains set_inbox set_written advance] in H.
    rewrite Hdrains in H. rewrite bind_run in H.
    match type of H with
    | context [_read_until_timeout timeout ?s] =>
        exists s; destruct (_read_until_timeout timeout s) as [r w3] eqn:Hread
    end.
    apply read_until_timeout_beyond in Hread.
    split; [now repeat split|]. split; [reflexivity|].
    rewrite <- Hread. f_equal.
    destruct r as [out|e]; [now injection H as _ <-|].
    destruct (is_TimeoutError e); [now injection H as _ <-|].
    destruct (is_Exception e); now injection H as _ <-. }
  destruct Hworld as (w2 & (Hin & Hout & Hsleeps & Hdrains) & Hwritten & Hsame).
  unfold beyond_reading in Hsame.
  injection Hsame as Hself Hw Hc1 Hc2 Hc3 Hs Hd.
  split; [|split; [congruence|exact Hlast]].
  unfold calm. rewrite Hself, Hs, Hd. auto.
Qed.

Lemma in_step_after_command (base : list string) (cmd : string)
    (w w1 : World) (f : Frame) (r : CommandResult) :
  in_step base (w, f) ->
  execute_command cmd default_timeout w = (Return r, w1) ->
  forall flag,
    in_step base
      (w1, {| results := (results f ++ [r])%list; all_success := flag |}).
Proof.
  intros [Hcalm Hw] Hcmd flag.
  destruct (execute_command_calm _ _ _ _ _ Hcalm Hcmd) as (Hcalm1 & Hw1 & Hname).
  split; [exact Hcalm1|]. cbn [fst snd results] in *.
  unfold attempted in *. rewrite Hw1, Hw, !map_app, <- app_assoc. cbn [map].
  now rewrite Hname.
Qed.

Lemma in_step_after_sleep (base : list string) (ms : N) (w : World)
    (f : Frame) :
  in_step base (w, f) ->
  lift (asyncio_sleep ms) (w, f)
  = (Return tt, (set_net (advance ms (net w)) w, f))
  /\ in_step base (set_net (advance ms (net w)) w, f).
Proof.
  intros [Hcalm Hw]. cbn [fst snd] in *.
  destruct (asyncio_sleep_calm ms w Hcalm) as [Hrun Hcalm'].
  rewrite lift_run, Hrun. split; [reflexivity|]. now split.
Qed.

Lemma entry_loop_in_step (base : list string) (delay : N)
    (cmds : list string) :
  forall s o s',
    in_step base s ->
    entry_loop delay cmds s = (o, s') ->
    match o with
    | Return _ => in_step base s'
    | Raise e => is_Exception e = false
    end.
Proof.
  induction cmds as [|cmd rest IH]; intros [w f] o s' Hstep H;
    cbn [entry_loop] in H.
  - now injection H as <- <-.
  - rewrite bind_run, lift_run in H.
    destruct (execute_command cmd default_timeout w) as [[r|e] w1] eqn:Hcmd;
      cbn [fst snd] in H.
    + rewrite bind_run in H. unfold append_result in H. cbn [fst snd] in H.
      pose proof (in_step_after_command _ _ _ _ _ _ Hstep Hcmd) as Hnext.
      destruct (negb (success r)).
      * unfold clear_all_success in H. injection H as <- <-.
        cbn [fst snd results]. apply Hnext.
      * rewrite bind_run in H.
        destruct (in_step_after_sleep base delay _ _ (Hnext (all_success f)))
          as [Hsleep Hslept].
        rewrite Hsleep in H. exact (IH _ _ _ Hslept H).
    + injection H as <- <-.
      destruct Hstep as [Hcalm _].
      now destruct (execute_command_calm _ _ _ _ _ Hcalm Hcmd) as (_ & _ & He).
Qed.

Lemma main_loop_in_step (base : list string) (delay : N)
    (cmds : list string) :
  forall s o s',
    in_step base s ->
    main_loop delay cmds s = (o, s') ->
    match o with
    | Return _ => in_step base s'
    | Raise e => is_Exception e = false
    end.
Proof.
  induction cmds as [|cmd rest IH]; intros [w f] o s' Hstep H;
    cbn [main_loop] in H.
  - now injection H as <- <-.
  - rewrite bind_run, lift_run in H.
    destruct (execute_command cmd default_timeout w) as [[r|e] w1] eqn:Hcmd;
      cbn [fst snd] in H.
    + rewrite bind_run in H. unfold append_result in H. cbn [fst snd] in H.
      pose proof (in_step_after_command _ _ _ _ _ _ Hstep Hcmd) as Hnext.
      rewrite bind_run in H.
      destruct (negb (success r)).
      * unfold clear_all_success at 1 in H. cbn [fst snd results] in H.
        rewrite bind_run in H.
        destruct (in_step_after_sleep base delay _ _ (Hnext false))
          as [Hsleep Hslept].
        rewrite Hsleep in H. exact (IH _ _ _ Hslept H).
      * unfold ret at 1 in H. rewrite bind_run in H.
        destruct (in_step_after_sleep base delay _ _ (Hnext (all_success f)))
          as [Hsleep Hslept].
        rewrite Hsleep in H. exact (IH _ _ _ Hslept H).
    + injection H as <- <-.
      destruct Hstep as [Hcalm _].
      now destruct (execute_command_calm _ _ _ _ _ Hcalm Hcmd) as (_ & _ & He).
Qed.

Lemma exit_loop_in_step (base : list string) (delay : N)
    (cmds : list string) :
  forall s o s',
    in_step base s ->
    exit_loop delay cmds s = (o, s') ->
    match o with
    | Return _ => in_step base s'
    | Raise e => is_Exception e = false
    end.
Proof.
  induction cmds as [|cmd rest IH]; intros [w f] o s' Hstep H;
    cbn [exit_loop] in H.
  - now injection H as <- <-.
  - rewrite bind_run, lift_run in H.
    destruct (execute_command cmd default_timeout w) as [[r|e] w1] eqn:Hcmd;
      cbn [fst snd] in H.
    + rewrite bind_run in H. unfold append_result in H. cbn [fst snd] in H.
      pose proof (in_step_after_command _ _ _ _ _ _ Hstep Hcmd) as Hnext.
      rewrite bind_run in H.
      destruct (in_step_after_sleep base delay _ _ (Hnext (all_success f)))
        as [Hsleep Hslept].
      rewrite Hsleep in H. exact (IH _ _ _ Hslept H).
    + injection H as <- <-.
      destruct Hstep as [Hcalm _].
      now destruct (execute_command_calm _ _ _ _ _ Hcalm Hcmd) as (_ & _ & He).
Qed.

Lemma execute_commands_body_in_step (commands : list string)
    (equipment_type : EquipmentType) (delay : N) (w : World)
    (o : outcome Report) (s' : St) :
  calm w ->
  execute_commands_body commands equipment_type delay
    (w, {| results := []; all_success := true |}) = (o, s') ->
  match o with
  | Return report =>
      in_step (written (net w)) s'
      /\ report_results report = results (snd s')
      /\ report_error report = None
  | Raise e => is_Exception e = false
  end.
Proof.
  intros Hcalm H.
  assert (Hstart : in_step (written (net w))
                     (w, {| results := []; all_success := true |})).
  { split; [exact Hcalm|]. cbn. now rewrite app_nil_r. }
  unfold execute_commands_body in H. rewrite bind_run in H.
  destruct (entry_loop delay _ _) as [[[]|e] s1] eqn:Hentry;
    apply (entry_loop_in_step _ _ _ _ _ _ Hstart) in Hentry.
  2:{ now injection H as <- <-. }
  rewrite bind_run in H. unfold read_all_success at 1 in H.
  rewrite bind_run in H.
  assert (Hmain : exists s2,
             in_step (written (net w)) s2
             /\ (exit_loop delay (_get_exit_commands equipment_type) ;;;
                 (fun s : St =>
                    (Return {| report_success := all_success (snd s);
                               equipment_type_value := value equipment_type;
                               total_commands := length commands;
                               successful_commands := count_successes (results (snd s));
                               report_results := results (snd s);
                               report_error := None |}, s))) s2 = (o, s')
             \/ exists e, o = Raise e /\ is_Exception e = false).
  { destruct (all_success (snd s1)).
    - destruct (main_loop delay _ s1) as [[[]|e] s2] eqn:Hm;
        apply (main_loop_in_step _ _ _ _ _ _ Hentry) in Hm.
      + exists s2. left. now split.
      + exists s1. right. exists e. injection H as <- _. now split.
    - exists s1. left. now split. }
  destruct Hmain as (s2 & [[Hstep2 Hrest] | (e & -> & He)]); [|exact He].
  clear H. rewrite bind_run in Hrest.
  destruct (exit_loop delay _ s2) as [[[]|e] s3] eqn:Hexit;
    apply (exit_loop_in_step _ _ _ _ _ _ Hstep2) in Hexit.
  - injection Hrest as <- <-. cbn [report_results report_error]. auto.
  - now injection Hrest as <- <-.
Qed.



(** * Further properties of the validator *)

Lemma spec_warnings_app (unicode_word : string -> bool)
    (patterns : list (string * string)) (a b : list string) :
  spec_warnings unicode_word patterns (a ++ b)
  = (spec_warnings unicode_word patterns a
     ++ spec_warnings unicode_word patterns b)%list.
Proof. unfold spec_warnings. apply flat_map_app. Qed.

Lemma validate_commands_warnings (unicode_word : string -> bool)
    (commands : list string) (equipment_type : EquipmentType) :
  warnings (validate_commands unicode_word commands equipment_type)
  = spec_warnings unicode_word (dangerous_patterns equipment_type) commands.
Proof.
  unfold validate_commands. cbn [warnings]. now rewrite for_commands_appends.
Qed.

Lemma validate_commands_count (unicode_word : string -> bool)
    (commands : list string) (equipment_type : EquipmentType) :
  dangerous_commands_count (validate_commands unicode_word commands equipment_type)
  = length (spec_warnings unicode_word (dangerous_patterns equipment_type)
              commands).
Proof.
  unfold validate_commands. cbn [dangerous_commands_count].
  now rewrite for_commands_appends.
Qed.

Lemma validate_commands_is_safe (unicode_word : string -> bool)
    (commands : list string) (equipment_type : EquipmentType) :
  is_safe (validate_commands unicode_word commands equipment_type)
  = (length (spec_warnings unicode_word (dangerous_patterns equipment_type)
               commands) =? 0)%nat.
Proof.
  unfold validate_commands. cbn [is_safe]. now rewrite for_commands_appends.
Qed.

(** X12: validating two command lists one after the other is validating
    them separately: the warnings are concatenated, the counts add up, and
    the whole is safe exactly when both parts are. *)
Theorem validate_commands_app
    (unicode_word : string -> bool)
    (a b : list string) (equipment_type : EquipmentType) :
  warnings (validate_commands unicode_word (a ++ b) equipment_type)
  = (warnings (validate_commands unicode_word a equipment_type)
     ++ warnings (validate_commands unicode_word b equipment_type))%list
  /\ dangerous_commands_count
       (validate_commands unicode_word (a ++ b) equipment_type)
     = dangerous_commands_count (validate_commands unicode_word a equipment_type)
       + dangerous_commands_count
           (validate_commands unicode_word b equipment_type)
  /\ is_safe (validate_commands unicode_word (a ++ b) equipment_type)
     = is_safe (validate_commands unicode_word a equipment_type)
       && is_safe (validate_commands unicode_word b equipment_type).
Proof.
  rewrite !validate_commands_warnings, !validate_commands_count,
    !validate_commands_is_safe, spec_warnings_app, length_app.
  conj_split; auto.
  destruct (length (spec_warnings _ _ a)); [reflexivity|].
  reflexivity.
Qed.

(** X13: a text is among the warnings exactly when it is
    [WARNING: <description>: <command>] for a command of the list, taken as
    it was given, and a rule of the table whose pattern matches the
    lower-cased command, that command containing none of the read-only
    markers. *)
Theorem warning_provenance
    (unicode_word : string -> bool)
    (commands : list string) (equipment_type : EquipmentType) (text : string) :
  In text (warnings (validate_commands unicode_word commands equipment_type)) <->
  exists cmd pattern description,
    In cmd commands
    /\ In (pattern, description) (dangerous_patterns equipment_type)
    /\ re_search unicode_word pattern (lower cmd) = true
    /\ (forall marker, In marker ["show"; "display"; "get"; "view"; "print"] ->
                       ~ Substring marker (lower cmd))
    /\ text = "WARNING: " ++ description ++ ": " ++ cmd.
Proof.
  rewrite validate_commands_warnings. unfold spec_warnings.
  rewrite in_flat_map. split.
  - intros (cmd & Hcmd & Hin). unfold warnings_of_command, read_only in Hin.
    destruct (existsb _ safe_keywords) eqn:Hsafe; [destruct Hin|].
    apply in_map_iff in Hin. destruct Hin as ([pattern description] & <- & Hrule).
    apply filter_In in Hrule. destruct Hrule as [Hrule Hmatch].
    exists cmd, pattern, description. conj_split; auto.
    now apply existsb_contains_spec.
  - intros (cmd & pattern & description & Hcmd & Hrule & Hmatch & Hsafe & ->).
    exists cmd. split; [assumption|].
    unfold warnings_of_command, read_only.
    apply existsb_contains_spec in Hsafe.
    change (existsb (fun marker => contains marker (lower cmd)) safe_keywords)
      with (existsb (fun k => contains k (lower cmd))
              ["show"; "display"; "get"; "view"; "print"]).
    rewrite Hsafe. apply in_map_iff. exists (pattern, description).
    split; [reflexivity|]. apply filter_In. now split.
Qed.

Lemma warnings_of_command_length (unicode_word : string -> bool)
    (patterns : list (string * string)) (cmd : string) :
  length (warnings_of_command unicode_word patterns cmd)
  = hits unicode_word patterns (lower cmd).
Proof.
  unfold warnings_of_command, read_only, hits.
  destruct (existsb _ safe_keywords); [reflexivity|]. apply length_map.
Qed.

Lemma spec_warnings_length (unicode_word : string -> bool)
    (patterns : list (string * string)) (commands : list string) :
  length (spec_warnings unicode_word patterns commands)
  = list_sum (map (hits unicode_word patterns) (map lower commands)).
Proof.
  unfold spec_warnings. induction commands as [|cmd rest IH]; [reflexivity|].
  cbn [flat_map map list_sum]. now rewrite length_app, warnings_of_command_length, IH.
Qed.

(** X14: the verdict looks at the commands through [lower] only: two
    lists that agree once lower-cased get the same number of warnings and the
    same safety flag. *)
Theorem validate_commands_ignores_case
    (unicode_word : string -> bool)
    (a b : list string) (equipment_type : EquipmentType) :
  map lower a = map lower b ->
  dangerous_commands_count (validate_commands unicode_word a equipment_type)
  = dangerous_commands_count (validate_commands unicode_word b equipment_type)
  /\ is_safe (validate_commands unicode_word a equipment_type)
     = is_safe (validate_commands unicode_word b equipment_type).
Proof.
  intros H.
  rewrite !validate_commands_count, !validate_commands_is_safe,
    !spec_warnings_length, H.
  split; reflexivity.
Qed.

Lemma validate_commands_ignores_case_witness :
  map lower ["Reload"; "SHOW version"] = map lower ["RELOAD"; "show VERSION"]
  /\ dangerous_commands_count
       (validate_commands all_letters ["Reload"; "SHOW version"] CISCO_IOS)
     = dangerous_commands_count
         (validate_commands all_letters ["RELOAD"; "show VERSION"] CISCO_IOS)
  /\ is_safe (validate_commands all_letters ["Reload"; "SHOW version"] CISCO_IOS)
     = is_safe (validate_commands all_letters ["RELOAD"; "show VERSION"] CISCO_IOS).
Proof.
  split; [reflexivity|].
  apply (validate_commands_ignores_case all_letters
           ["Reload"; "SHOW version"] ["RELOAD"; "show VERSION"] CISCO_IOS).
  reflexivity.
Defined.

(** X15: a command yields at most one warning per rule of the table, so the
    number of warnings is at most the number of commands times the number of
    rules. *)
Theorem warnings_are_bounded
    (unicode_word : string -> bool)
    (commands : list string) (equipment_type : EquipmentType) :
  dangerous_commands_count (validate_commands unicode_word commands equipment_type)
  <= length commands * length (dangerous_patterns equipment_type).
Proof.
  rewrite validate_commands_count, spec_warnings_length.
  induction commands as [|cmd rest IH]; [apply Nat.le_refl|].
  unfold list_sum in *. cbn [map fold_right length]. rewrite Nat.mul_succ_l.
  assert (hits unicode_word (dangerous_patterns equipment_type) (lower cmd)
          <= length (dangerous_patterns equipment_type)).
  { unfold hits. destruct (existsb _ safe_keywords); [lia|].
    apply filter_length_le. }
  lia.
Qed.

(** ** Patterns and substrings *)

Lemma re_compile_literal (c : ascii) (rest : string) :
  c <> "\"%char ->
  re_compile (String c rest) = Literal c :: re_compile rest.
Proof.
  intros Hc.
  destruct c as [[] [] [] [] [] [] [] []]; try reflexivity.
  now destruct Hc.
Qed.

Lemma no_backslash_cons (c : ascii) (p : string) :
  contains "\" (String c p) = false ->
  c <> "\"%char /\ contains "\" p = false.
Proof.
  cbn [contains starts_with]. rewrite orb_false_iff, andb_true_r.
  intros [Hc Hp]. split; [|exact Hp].
  intros ->. discriminate.
Qed.

Lemma match_here_literal (unicode_word : string -> bool) (p : string) :
  contains "\" p = false ->
  forall prev s,
    match_here unicode_word (re_compile p) prev s = starts_with p s.
Proof.
  induction p as [|c p IH]; intros Hp prev s; [reflexivity|].
  apply no_backslash_cons in Hp. destruct Hp as [Hc Hp].
  rewrite (re_compile_literal _ _ Hc). cbn [match_here starts_with].
  destruct s as [|a s]; [reflexivity|].
  now rewrite IH, Ascii.eqb_sym.
Qed.

Lemma re_search_of_literal_pattern (unicode_word : string -> bool)
    (pattern s : string) :
  contains "\" pattern = false ->
  re_search unicode_word pattern s = contains pattern s.
Proof.
  intros Hp. unfold re_search. generalize false.
  induction s as [|a s IH]; intros prev; cbn [search_from contains];
    rewrite (match_here_literal _ _ Hp); [reflexivity|].
  now rewrite IH.
Qed.

(** X16: the rules of the MikroTik table are plain substring tests: each of
    its patterns is found in a text exactly when the text contains it. *)
Theorem mikrotik_rules_are_substring_tests
    (unicode_word : string -> bool) (pattern description s : string) :
  In (pattern, description) (dangerous_patterns MIKROTIK) ->
  re_search unicode_word pattern s = contains pattern s.
Proof.
  cbn [dangerous_patterns In].
  intros [H | [H | [H | []]]]; injection H as <- _;
    now apply re_search_of_literal_pattern.
Qed.

Lemma mikrotik_rules_are_substring_tests_witness :
  In ("/system reboot", "Перезагрузка (reboot)") (dangerous_patterns MIKROTIK)
  /\ re_search all_letters "/system reboot" "/system reboot now"
     = contains "/system reboot" "/system reboot now".
Proof.
  split; [left; reflexivity|].
  apply (mikrotik_rules_are_substring_tests all_letters
           "/system reboot" "Перезагрузка (reboot)" "/system reboot now").
  left. reflexivity.
Defined.

Lemma match_here_literals (unicode_word : string -> bool) (pat : list token) :
  forall prev s,
    match_here unicode_word pat prev s = true ->
    starts_with (literals pat) s = true.
Proof.
  induction pat as [|[|c] pat IH]; intros prev s H; cbn [literals match_here] in *.
  - reflexivity.
  - apply andb_true_iff in H. destruct H as [_ H]. exact (IH _ _ H).
  - destruct s as [|a s]; [discriminate|].
    apply andb_true_iff in H. destruct H as [Ha H].
    cbn [starts_with]. rewrite Ascii.eqb_sym, Ha. exact (IH _ _ H).
Qed.

Lemma search_from_literals (unicode_word : string -> bool) (pat : list token) :
  forall s prev,
    search_from unicode_word pat prev s = true ->
    contains (literals pat) s = true.
Proof.
  induction s as [|a s IH]; intros prev H; cbn [search_from contains] in *.
  - rewrite orb_false_r in H. now rewrite (match_here_literals _ _ _ _ H).
  - apply orb_true_iff in H. destruct H as [H | H].
    + now rewrite (match_here_literals _ _ _ _ H).
    + rewrite (IH _ H). apply orb_true_r.
Qed.

(** X17: a rule of the tables fires only on a text that contains the words
    of its pattern: whenever the pattern of a rule is found in a text, the
    pattern stripped of its word boundaries is a substring of that text. *)
Theorem rule_match_contains_its_words
    (unicode_word : string -> bool) (equipment_type : EquipmentType)
    (pattern description s : string) :
  In (pattern, description) (dangerous_patterns equipment_type) ->
  re_search unicode_word pattern s = true ->
  contains (bare pattern) s = true.
Proof.
  intros _ H. exact (search_from_literals _ _ _ _ H).
Qed.

Lemma rule_match_contains_its_words_witness :
  In ("\bshutdown\b", "Отключение интерфейса (shutdown)")
     (dangerous_patterns HUAWEI)
  /\ re_search all_letters "\bshutdown\b" "undo shutdown" = true
  /\ bare "\bshutdown\b" = "shutdown"
  /\ contains (bare "\bshutdown\b") "undo shutdown" = true.
Proof.
  split; [cbn; tauto|]. split; [reflexivity|]. split; [reflexivity|].
  apply (rule_match_contains_its_words all_letters HUAWEI
           "\bshutdown\b" "Отключение интерфейса (shutdown)" "undo shutdown").
  - cbn. tauto.
  - reflexivity.
Defined.

(** The boundaries matter: the word inside a longer word does not match. *)
Example bounded_word_inside_a_word :
  re_search all_letters "\bshutdown\b" "unshutdownable" = false
  /\ contains "shutdown" "unshutdownable" = true.
Proof. split; reflexivity. Qed.

(** * Further properties of the entry points *)

Lemma filter_failures_after_successes (good rest : list CommandResult)
    (r : CommandResult) :
  forallb success good = true ->
  success r = false ->
  filter (fun x => negb (success x)) (good ++ r :: rest)
  = r :: filter (fun x => negb (success x)) rest.
Proof.
  intros Hgood Hr. induction good as [|g good IH]; cbn [app filter].
  - now rewrite Hr.
  - cbn [forallb] in Hgood. apply andb_true_iff in Hgood.
    destruct Hgood as [-> Hgood]. cbn [negb]. now apply IH.
Qed.

(** X18: for a failed batch, the text [execute_commands_ssh] makes of the
    report names the first result that failed, whatever failed after it, and
    shows its output or, when the output is empty, its failure reason. *)
Theorem aggregate_names_first_failure
    (report : Report) (good rest : list CommandResult) (r : CommandResult) :
  report_success report = false ->
  report_results report = (good ++ r :: rest)%list ->
  forallb success good = true ->
  success r = false ->
  aggregate report
  = "Ошибка выполнения команды '" ++ command r ++ "': "
    ++ (if truthy (output r) then output r
        else match error r with Some reason => reason | None => "None" end).
Proof.
  intros Hfail Hres Hgood Hr. unfold aggregate.
  now rewrite Hfail, Hres, (filter_failures_after_successes _ _ _ Hgood Hr).
Qed.

Lemma aggregate_names_first_failure_witness :
  report_success
    {| report_success := false; equipment_type_value := "cisco_ios";
       total_commands := 1; successful_commands := 1;
       report_results :=
         [Build_CommandResult true "enable" "Router#" None;
          Build_CommandResult false "configure terminal" "" (Some "Connection lost");
          Build_CommandResult false "end" "% Unknown command" (Some rejection_reason)];
       report_error := None |} = false
  /\ forallb success [Build_CommandResult true "enable" "Router#" None] = true
  /\ success (Build_CommandResult false "configure terminal" ""
                (Some "Connection lost")) = false
  /\ aggregate
       {| report_success := false; equipment_type_value := "cisco_ios";
          total_commands := 1; successful_commands := 1;
          report_results :=
            [Build_CommandResult true "enable" "Router#" None;
             Build_CommandResult false "configure terminal" "" (Some "Connection lost");
             Build_CommandResult false "end" "% Unknown command" (Some rejection_reason)];
          report_error := None |}
     = "Ошибка выполнения команды '" ++ "configure terminal" ++ "': "
       ++ "Connection lost".
Proof.
  split; [reflexivity|]. split; [reflexivity|]. split; [reflexivity|].
  apply (aggregate_names_first_failure _
           [Build_CommandResult true "enable" "Router#" None]
           [Build_CommandResult false "end" "% Unknown command" (Some rejection_reason)]
           (Build_CommandResult false "configure terminal" "" (Some "Connection lost")));
    reflexivity.
Defined.

Lemma execute_commands_ssh_not_connected
    (commands : list string) (ip username password device_type_str : string)
    (w w1 : World) :
  connect (Some password) None (set_self new_client w) = (Return false, w1) ->
  execute_commands_ssh commands ip username password device_type_str w
  = (Raise (Exception ("Не удалось подключиться к устройству " ++ ip
                       ++ " под пользователем " ++ username ++ ".")), w1).
Proof.
  intros Hconnect. unfold execute_commands_ssh. rewrite bind_run.
  destruct (device_type_enum_of_total device_type_str w) as [e ->].
  rewrite bind_run. cbn beta iota. rewrite bind_run, Hconnect. reflexivity.
Qed.

(** X19: when the session cannot be established, [execute_tool] does not
    raise: it returns the error flag set and a text that wraps the
    connection error with the address and the user. *)
Theorem execute_tool_reports_connection_failure
    (commands : list string) (device_ip username password device_type : string)
    (w w1 : World) :
  connect (Some password) None (set_self new_client w) = (Return false, w1) ->
  execute_tool commands device_ip username password device_type w
  = (Return {| tool_output :=
                 "Ошибка подключения или выполнения: "
                 ++ "Не удалось подключиться к устройству " ++ device_ip
                 ++ " под пользователем " ++ username ++ ".";
               tool_error := true |}, w1).
Proof.
  intros Hconnect. unfold execute_tool. rewrite bind_run.
  destruct (device_type_enum_of_total device_type w) as [e ->].
  unfold try_except. rewrite bind_run.
  rewrite (execute_commands_ssh_not_connected _ _ _ _ _ _ _ Hconnect).
  reflexivity.
Qed.

Lemma execute_tool_reports_connection_failure_witness :
  connect (Some "secret") None
    (set_self new_client {| self := new_client; net := refusing |})
  = (Return false, {| self := new_client; net := refusing |})
  /\ execute_tool ["hostname R1"] "192.0.2.1" "admin" "secret" "cisco_ios"
       {| self := new_client; net := refusing |}
     = (Return {| tool_output :=
                    "Ошибка подключения или выполнения: "
                    ++ "Не удалось подключиться к устройству " ++ "192.0.2.1"
                    ++ " под пользователем " ++ "admin" ++ ".";
                  tool_error := true |},
        {| self := new_client; net := refusing |}).
Proof.
  split; [vm_compute; reflexivity|].
  apply (execute_tool_reports_connection_failure ["hostname R1"] "192.0.2.1"
           "admin" "secret" "cisco_ios" {| self := new_client; net := refusing |}).
  vm_compute. reflexivity.
Defined.

(** [lower] works separately on both sides of a plain character. *)
Lemma lower_plain_head (x : ascii) (b : string) :
  plain x = true -> lower (String x b) = String x (lower b).
Proof.
  intros Hx. unfold plain in Hx.
  assert (H196 : is_byte 196 x = false)
    by (unfold is_byte; apply Nat.eqb_neq; apply Nat.ltb_lt in Hx; lia).
  assert (H226 : is_byte 226 x = false)
    by (unfold is_byte; apply Nat.eqb_neq; apply Nat.ltb_lt in Hx; lia).
  assert (Hlow : lower_char x = x).
  { unfold lower_char. apply Nat.ltb_lt in Hx.
    destruct (65 <=? nat_of_ascii x)%nat eqn:H1; [|reflexivity].
    apply Nat.leb_le in H1. lia. }
  destruct b as [|c1 [|c2 s3]]; cbn [lower]; rewrite ?H196, ?H226, Hlow;
    reflexivity.
Qed.

Lemma lower_two (c c1 : ascii) (s2 : string) :
  lower (String c (String c1 s2)) =
  if is_byte 196 c && is_byte 176 c1 then
    String "i" (String (ascii_of_nat 204) (String (ascii_of_nat 135) (lower s2)))
  else
    match s2 with
    | EmptyString => String (lower_char c) (lower (String c1 s2))
    | String c2 s3 =>
        if is_byte 226 c && is_byte 132 c1 && is_byte 170 c2
        then String "k" (lower s3)
        else String (lower_char c) (lower (String c1 s2))
    end.
Proof. reflexivity. Qed.

Lemma lower_around_plain (x : ascii) :
  plain x = true ->
  forall n a b,
    String.length a <= n ->
    lower (a ++ String x b) = lower a ++ String x (lower b).
Proof.
  intros Hx.
  assert (H132 : is_byte 132 x = false)
    by (unfold is_byte, plain in *; apply Nat.eqb_neq; apply Nat.ltb_lt in Hx; lia).
  assert (H170 : is_byte 170 x = false)
    by (unfold is_byte, plain in *; apply Nat.eqb_neq; apply Nat.ltb_lt in Hx; lia).
  assert (H176 : is_byte 176 x = false)
    by (unfold is_byte, plain in *; apply Nat.eqb_neq; apply Nat.ltb_lt in Hx; lia).
  induction n as [|n IH]; intros a b Hlen.
  - destruct a; [|cbn in Hlen; lia]. apply (lower_plain_head x b Hx).
  - destruct a as [|c [|c1 [|c2 a3]]]; cbn [String.length] in Hlen.
    + apply (lower_plain_head x b Hx).
    + (* one character before the separator *)
      change (String c "" ++ String x b) with (String c (String x b)).
      rewrite lower_two, H176, andb_false_r.
      destruct b as [|c2 s3].
      * rewrite (lower_plain_head x "" Hx). reflexivity.
      * rewrite H132, andb_false_r, (lower_plain_head x _ Hx). reflexivity.
    + (* two characters before the separator *)
      change (String c (String c1 "") ++ String x b)
        with (String c (String c1 (String x b))).
      pose proof (IH (String c1 "") b ltac:(cbn [String.length]; lia)) as H1.
      change (String c1 "" ++ String x b) with (String c1 (String x b)) in H1.
      rewrite (lower_two c c1 (String x b)), (lower_two c c1 "").
      destruct (is_byte 196 c && is_byte 176 c1).
      * rewrite (lower_plain_head x b Hx). reflexivity.
      * rewrite H170, andb_false_r, H1. reflexivity.
    + (* three or more *)
      change (String c (String c1 (String c2 a3)) ++ String x b)
        with (String c (String c1 (String c2 (a3 ++ String x b)))).
      pose proof (IH (String c1 (String c2 a3)) b
                    ltac:(cbn [String.length]; lia)) as H1.
      pose proof (IH (String c2 a3) b ltac:(cbn [String.length]; lia)) as H2.
      pose proof (IH a3 b ltac:(lia)) as H3.
      change (String c1 (String c2 a3) ++ String x b)
        with (String c1 (String c2 (a3 ++ String x b))) in H1.
      change (String c2 a3 ++ String x b)
        with (String c2 (a3 ++ String x b)) in H2.
      rewrite (lower_two c c1 (String c2 (a3 ++ String x b))),
        (lower_two c c1 (String c2 a3)).
      destruct (is_byte 196 c && is_byte 176 c1).
      * rewrite H2. reflexivity.
      * destruct (is_byte 226 c && is_byte 132 c1 && is_byte 170 c2).
        -- rewrite H3. reflexivity.
        -- rewrite H1. reflexivity.
Qed.

Lemma starts_with_before_separator (x : ascii) :
  forall k a b,
    contains (String x "") k = false ->
    k <> "" ->
    starts_with k (a ++ String x b) = starts_with k a.
Proof.
  intros k a. revert k.
  induction a as [|c a IH]; intros k b Hx Hk.
  - destruct k as [|y k]; [now destruct Hk|].
    cbn [append starts_with contains] in *.
    apply orb_false_iff in Hx. destruct Hx as [Hx _].
    rewrite andb_true_r in Hx. now rewrite Ascii.eqb_sym, Hx.
  - destruct k as [|y k]; [reflexivity|].
    cbn [append starts_with].
    destruct k as [|z k]; [now destruct (Ascii.eqb y c)|].
    rewrite IH; [reflexivity| |discriminate].
    cbn [contains] in Hx. apply orb_false_iff in Hx. now destruct Hx.
Qed.

(** A keyword cannot straddle a character it does not contain. *)
Lemma contains_around_separator (x : ascii) (k : string) :
  contains (String x "") k = false ->
  k <> "" ->
  forall a b,
    contains k (a ++ String x b) = contains k a || contains k b.
Proof.
  intros Hx Hk a b. induction a as [|c a IH].
  - pose proof (starts_with_before_separator x k "" b Hx Hk) as H0.
    cbn [append] in H0. cbn [append contains]. rewrite H0.
    destruct k as [|y k]; [now destruct Hk|]. reflexivity.
  - change (String c a ++ String x b) with (String c (a ++ String x b)).
    cbn [contains].
    change (String c (a ++ String x b)) with (String c a ++ String x b).
    rewrite (starts_with_before_separator x k (String c a) b Hx Hk), IH.
    now rewrite orb_assoc.
Qed.

Lemma failure_text_contains (k cmd out : string) :
  contains "'" k = false -> contains ":" k = false -> contains " " k = false ->
  k <> "" ->
  contains k "Ошибка выполнения команды " = false ->
  contains k ("Ошибка выполнения команды '" ++ cmd ++ "': " ++ out)
  = contains k cmd || contains k out.
Proof.
  intros Hq Hc Hs Hk Hhead.
  change ("Ошибка выполнения команды '" ++ cmd ++ "': " ++ out)
    with ("Ошибка выполнения команды " ++ String "'" (cmd ++ "': " ++ out)).
  rewrite (contains_around_separator "'" k Hq Hk), Hhead. cbn [orb].
  change (cmd ++ "': " ++ out) with (cmd ++ String "'" (": " ++ out)).
  rewrite (contains_around_separator "'" k Hq Hk).
  change (": " ++ out) with ("" ++ String ":" (" " ++ out)).
  rewrite (contains_around_separator ":" k Hc Hk).
  change (" " ++ out) with ("" ++ String " " out).
  rewrite (contains_around_separator " " k Hs Hk).
  destruct k as [|y k]; [now destruct Hk|]. reflexivity.
Qed.

(** X20: [execute_tool] looks for [%] and [error] in the text only.  When
    [execute_commands_ssh] returns its failure text for a command, and
    neither the command nor its output contains [%] or, lower-cased,
    [error], [execute_tool] passes the text on with the error flag unset. *)
Theorem failure_text_without_percent_or_error_is_not_flagged
    (commands : list string) (device_ip username password device_type : string)
    (w w' : World) (cmd out : string) :
  execute_commands_ssh commands device_ip username password device_type w
  = (Return ("Ошибка выполнения команды '" ++ cmd ++ "': " ++ out), w') ->
  contains "%" cmd = false -> contains "%" out = false ->
  contains "error" (lower cmd) = false ->
  contains "error" (lower out) = false ->
  execute_tool commands device_ip username password device_type w
  = (Return {| tool_output :=
                 "Ошибка выполнения команды '" ++ cmd ++ "': " ++ out;
               tool_error := false |}, w').
Proof.
  intros Hrun Hp1 Hp2 He1 He2. unfold execute_tool. rewrite bind_run.
  destruct (device_type_enum_of_total device_type w) as [e ->].
  unfold try_except. rewrite bind_run, Hrun.
  assert (Hpercent :
    contains "%" ("Ошибка выполнения команды '" ++ cmd ++ "': " ++ out) = false).
  { rewrite failure_text_contains, Hp1, Hp2;
      try reflexivity; discriminate. }
  assert (Herror :
    contains "error"
      (lower ("Ошибка выполнения команды '" ++ cmd ++ "': " ++ out)) = false).
  { assert (Hlower :
      lower ("Ошибка выполнения команды '" ++ cmd ++ "': " ++ out)
      = "Ошибка выполнения команды '" ++ lower cmd ++ "': " ++ lower out).
    { change ("Ошибка выполнения команды '" ++ cmd ++ "': " ++ out)
        with ("Ошибка выполнения команды "
              ++ String "'" (cmd ++ String "'" ("" ++ String ":" (String " " out)))).
      rewrite (lower_around_plain "'" eq_refl _ _ _ (Nat.le_refl _)).
      rewrite (lower_around_plain "'" eq_refl _ cmd _ (Nat.le_refl _)).
      rewrite (lower_around_plain ":" eq_refl _ "" _ (Nat.le_refl _)).
      rewrite (lower_plain_head " " out eq_refl).
      reflexivity. }
    rewrite Hlower, failure_text_contains, He1, He2;
      try reflexivity; discriminate. }
  rewrite Hpercent, Herror. reflexivity.
Qed.

Lemma failure_text_without_percent_or_error_is_not_flagged_witness :
  execute_commands_ssh ["hostname R1"] "192.0.2.1" "admin" "secret" "cisco_ios"
    (not_yet_connected (fun _ => [Chunk 10 "Invalid input detected"]))
  = (Return ("Ошибка выполнения команды '" ++ "enable" ++ "': "
             ++ "Invalid input detected"),
     snd (execute_commands_ssh ["hostname R1"] "192.0.2.1" "admin" "secret"
            "cisco_ios"
            (not_yet_connected (fun _ => [Chunk 10 "Invalid input detected"]))))
  /\ contains "%" "enable" = false
  /\ contains "%" "Invalid input detected" = false
  /\ contains "error" (lower "enable") = false
  /\ contains "error" (lower "Invalid input detected") = false
  /\ execute_tool ["hostname R1"] "192.0.2.1" "admin" "secret" "cisco_ios"
       (not_yet_connected (fun _ => [Chunk 10 "Invalid input detected"]))
     = (Return {| tool_output :=
                    "Ошибка выполнения команды '" ++ "enable" ++ "': "
                    ++ "Invalid input detected";
                  tool_error := false |},
        snd (execute_commands_ssh ["hostname R1"] "192.0.2.1" "admin" "secret"
               "cisco_ios"
               (not_yet_connected (fun _ => [Chunk 10 "Invalid input detected"])))).
Proof.
  split; [vm_compute; reflexivity|].
  split; [reflexivity|]. split; [reflexivity|].
  split; [reflexivity|]. split; [reflexivity|].
  apply (failure_text_without_percent_or_error_is_not_flagged
           ["hostname R1"] "192.0.2.1" "admin" "secret" "cisco_ios"
           (not_yet_connected (fun _ => [Chunk 10 "Invalid input detected"])));
    [vm_compute; reflexivity | reflexivity ..].
Defined.

(** X21: after [disconnect], a command no longer reaches the device:
    [execute_command] returns the failure for a missing connection and the
    world stays as [disconnect] left it. *)
Theorem no_command_after_disconnect (cmd : string) (timeout : N) (w : World) :
  execute_command cmd timeout (snd (disconnect w))
  = (Return {| success := false; command := cmd; output := "";
               error := Some "Нет активного подключения" |},
     snd (disconnect w))
  /\ written (net (snd (disconnect w))) = written (net w).
Proof.
  split; [reflexivity|].
  unfold disconnect. cbn [snd net].
  destruct (stdin (self w)), (connection (self w)); reflexivity.
Qed.

(** X22: the call [EquipmentType(v)] is the inverse of [.value]: it returns
    a member exactly when [v] is that member's value, so distinct members
    have distinct values, and for every other string it raises a
    [ValueError]. *)
Theorem EquipmentType_call_inverts_value (v : string) :
  (forall t, EquipmentType_call v = Return t <-> v = value t)
  /\ ((forall t, v <> value t) ->
      exists msg, EquipmentType_call v = Raise (ValueError msg)).
Proof.
  unfold EquipmentType_call.
  destruct (String.eqb_spec v "cisco_ios") as [-> | H1].
  { split.
    - intros t. split; [intros [= <-]; reflexivity | now destruct t].
    - intros H. now destruct (H CISCO_IOS). }
  destruct (String.eqb_spec v "juniper_junos") as [-> | H2].
  { split.
    - intros t. split; [intros [= <-]; reflexivity | now destruct t].
    - intros H. now destruct (H JUNIPER_JUNOS). }
  destruct (String.eqb_spec v "huawei") as [-> | H3].
  { split.
    - intros t. split; [intros [= <-]; reflexivity | now destruct t].
    - intros H. now destruct (H HUAWEI). }
  destruct (String.eqb_spec v "mikrotik") as [-> | H4].
  { split.
    - intros t. split; [intros [= <-]; reflexivity | now destruct t].
    - intros H. now destruct (H MIKROTIK). }
  split; [|intros _; eexists; reflexivity].
  intros t. split; [discriminate|].
  intros ->. destruct t; cbn in *; congruence.
Qed.
